(** * GeometriaComputacional: spatial index, radius / k-nearest queries and
      batch nearest-node assignment.

    Shallow embedding of
      - [src/geometry/fast_postgis_like.py]  (class [FastPostGISLike]),
      - [voronoi_optimized.py]               ([create_optimized_voronoi_assignment]),
      - [voronoi_assignment.py]              ([create_voronoi_assignment]).

    Numbers.  Python floats are idealised as exact rationals ([Q]); rounding
    is not modelled.  The non-finite floats that can reach the bounding-box
    filter are kept as separate constructors ([pyfloat]).  A Euclidean
    distance is carried as its square ([Sqrt d2] stands for the root of
    [d2]), the order and equality of roots being those of the squares.

    Exceptions.  A call either returns a value or raises ([outcome]); the
    [try ... except Exception] blocks of the source are [try_except]. *)

From Stdlib Require Import Reals Lra.
From Stdlib Require Import List ZArith QArith Qabs Lia Lqa Bool Arith Permutation Sorted.
Import ListNotations.

Close Scope R_scope.
Close Scope Q_scope.
Open Scope nat_scope.

Set Implicit Arguments.
Set Warnings "-abstract-large-number".

(* ------------------------------------------------------------------ *)
(** ** Python runtime: exceptions, sequencing, a few builtins *)

Module Py.

(** The exceptions the modelled code can raise, together with the typed
    failures of the specification's error taxonomy (never raised below). *)
Inductive exn : Type :=
| ValueError
| ZeroDivisionError
| IndexError
| QhullError
| InvalidArgument
| EmptyReferenceSet
| OutOfRange
| MalformedCoordinate.

Inductive outcome (A : Type) : Type :=
| Returns (v : A)
| Raises (e : exn).

Arguments Returns {A} v.
Arguments Raises {A} e.

Definition bind {A B : Type} (m : outcome A) (f : A -> outcome B) : outcome B :=
  match m with
  | Returns v => f v
  | Raises e => Raises e
  end.

(** [try: body  except Exception as e: handler] *)
Definition try_except {A : Type} (body : outcome A) (handler : exn -> outcome A)
  : outcome A :=
  match body with
  | Returns v => Returns v
  | Raises e => handler e
  end.

(** [for x in xs: acc = step acc x], stopping at the first exception. *)
Fixpoint for_each {A S : Type} (xs : list A) (step : S -> A -> outcome S) (acc : S)
  : outcome S :=
  match xs with
  | [] => Returns acc
  | x :: xs' => bind (step acc x) (for_each xs' step)
  end.

(** Float true division [a / b]: [ZeroDivisionError] on a zero divisor. *)
Definition truediv (a b : Q) : outcome Q :=
  if Qeq_bool b 0 then Raises ZeroDivisionError else Returns (a / b)%Q.

(** Builtin [max(a, b)] on numbers: [b] when [b > a], else [a]. *)
Definition max (a b : Q) : Q := if Qle_bool b a then a else b.

(** [xs[i]] on a list, for a non-negative index. *)
Definition getitem {A : Type} (xs : list A) (i : nat) : outcome A :=
  match nth_error xs i with
  | Some v => Returns v
  | None => Raises IndexError
  end.

(** [xs[lo:hi]] for [0 <= lo]. *)
Definition slice {A : Type} (xs : list A) (lo hi : nat) : list A :=
  firstn (hi - lo) (skipn lo xs).

(** [enumerate(xs)] *)
Definition enumerate {A : Type} (xs : list A) : list (nat * A) :=
  combine (seq 0 (length xs)) xs.

(** [range(start, stop, step)] for a non-negative [start]; a zero [step]
    raises [ValueError].  The length is CPython's
    [(stop - start + step - 1) // step]. *)
Definition range3 (start stop step : nat) : outcome (list nat) :=
  match step with
  | O => Raises ValueError
  | S _ =>
      Returns (map (fun c => start + c * step)
                   (seq 0 ((stop - start + step - 1) / step)))
  end.

End Py.

Import Py.

Declare Scope py_scope.
Delimit Scope py_scope with py.
Notation "x <- m ;; k" := (bind m (fun x => k))
  (at level 61, m at next level, right associativity) : py_scope.
Open Scope py_scope.

(* ------------------------------------------------------------------ *)
(** ** Coordinates *)

(** A point is a pair (latitude, longitude) in decimal degrees. *)
Definition point : Type := (Q * Q)%type.

(** [np.pi]: the double nearest to pi, 884279719003555 / 2^48. *)
Definition np_pi : Q := (884279719003555 # 281474976710656)%Q.

(** The literal [111.32] (kilometres per degree of latitude). *)
Definition km_per_degree : Q := (11132 # 100)%Q.

(** A distance: the root of a squared distance, or numpy's [inf]. *)
Inductive dist : Type :=
| Sqrt (d2 : Q)
| Inf.

(* ------------------------------------------------------------------ *)
(** ** scipy.spatial.cKDTree, by its documented contract

    The tree is an external library; only what the repository's code
    observes is modelled, as a scan over the indexed points.
    - the constructor needs a two-dimensional array: [np.array([])] (what an
      empty list of points becomes) is one-dimensional and is refused with
      [ValueError];
    - [query_ball_point(x, r)] gives the indices of the points at Euclidean
      distance at most [r] from [x] (in no specified order: the statements
      below speak of membership only); the library compares squares,
      [dist2 <= r * r], so a negative [r] selects what [-r] does;
    - [query(xs, k)] gives, for each row of [xs], the [k] nearest points by
      increasing distance; missing neighbours are reported with distance
      [inf] and index [n]; with [k = 1] the last axis is squeezed.  The
      order among equidistant points is the library's own and is not
      specified: [query] lists the lower index first (what [np.argmin]
      does); where a statement would depend on that choice it is made
      about [query_by], for every order. *)

Module KDTree.

Record t : Type := Build { data : list point }.

Definition n (tree : t) : nat := length (data tree).

Definition cKDTree (points_array : list point) : outcome t :=
  match points_array with
  | [] => Raises ValueError
  | _ :: _ => Returns (Build points_array)
  end.

Definition dist2 (a b : point) : Q :=
  ((fst a - fst b) * (fst a - fst b) + (snd a - snd b) * (snd a - snd b))%Q.

Definition within (x : point) (r : Q) (p : point) : bool :=
  Qle_bool (dist2 x p) (r * r)%Q.

Definition query_ball_point (tree : t) (x : point) (r : Q) : list nat :=
  map fst (filter (fun ip => within x r (snd ip)) (enumerate (data tree))).

(** Indexed points by increasing distance from [x]: a stable insertion
    sort of [enumerate(data)] on the squared distance. *)
Section SortBy.
Variable A : Type.
Variable key : A -> Q.

Fixpoint insert_by (a : A) (l : list A) : list A :=
  match l with
  | [] => [a]
  | b :: l' => if Qle_bool (key a) (key b) then a :: l else b :: insert_by a l'
  end.

Fixpoint sort_by (l : list A) : list A :=
  match l with
  | [] => []
  | a :: l' => insert_by a (sort_by l')
  end.
End SortBy.

Definition by_distance (tree : t) (x : point) : list (nat * point) :=
  sort_by (fun ip => dist2 x (snd ip)) (enumerate (data tree)).

(** One row of [query]: the [k] nearest, padded with [(inf, n)]. *)
Definition query_row (tree : t) (x : point) (k : nat) : list dist * list nat :=
  let near := firstn k (by_distance tree x) in
  let missing := k - length near in
  (map (fun ip => Sqrt (dist2 x (snd ip))) near ++ repeat Inf missing,
   map fst near ++ repeat (n tree) missing).

(** [query(xs, k)] for an integer [k]: [(distances, indices)], one row per
    query point.  An empty [xs] is a one-dimensional array and is refused,
    as is [k < 1]. *)
Definition query (tree : t) (xs : list point) (k : Z)
  : outcome (list (list dist) * list (list nat)) :=
  match xs with
  | [] => Raises ValueError
  | _ :: _ =>
      if (k <? 1)%Z then Raises ValueError
      else
        let rows := map (fun x => query_row tree x (Z.to_nat k)) xs in
        Returns (map fst rows, map snd rows)
  end.

(** The one-dimensional view scipy returns when [k = 1]. *)
Definition squeeze {A : Type} (rows : list (list A)) : list A := concat rows.

(** *** The order among equidistant points, left open

    Which of several equidistant points [query] lists first is not part of
    the library's contract: it depends on how the tree was split.  In
    [query_by], [order tree x] stands for the library's list of the indexed
    points by increasing distance from [x], whatever it does with ties; the
    answer for one query point depends on the tree and on that point only,
    not on the other rows of [xs].  [nearest_first] is what the contract
    says of such a list, and [by_distance] above is one instance
    ([query_by by_distance] is [query]). *)
Definition nearest_first (order : t -> point -> list (nat * point)) : Prop :=
  forall (tree : t) (x : point),
    Permutation (order tree x) (enumerate (data tree)) /\
    StronglySorted (fun a b => (dist2 x (snd a) <= dist2 x (snd b))%Q)
                   (order tree x).

Definition query_row_by (order : t -> point -> list (nat * point))
    (tree : t) (x : point) (k : nat) : list dist * list nat :=
  let near := firstn k (order tree x) in
  let missing := k - length near in
  (map (fun ip => Sqrt (dist2 x (snd ip))) near ++ repeat Inf missing,
   map fst near ++ repeat (n tree) missing).

Definition query_by (order : t -> point -> list (nat * point))
    (tree : t) (xs : list point) (k : Z)
  : outcome (list (list dist) * list (list nat)) :=
  match xs with
  | [] => Raises ValueError
  | _ :: _ =>
      if (k <? 1)%Z then Raises ValueError
      else
        let rows := map (fun x => query_row_by order tree x (Z.to_nat k)) xs in
        Returns (map fst rows, map snd rows)
  end.

(** An order that lists the higher index first among equidistant
    points: the stable sort of the reversed enumeration. *)
Definition higher_index_first (tree : t) (x : point) : list (nat * point) :=
  sort_by (fun ip => dist2 x (snd ip)) (rev (enumerate (data tree))).

End KDTree.

(* ------------------------------------------------------------------ *)
(** ** class FastPostGISLike *)

Record FastPostGISLike : Type := mkFast {
  points : list point;
  points_array : option (list point);
  kdtree : option KDTree.t
}.

(** [__init__] *)
Definition init : FastPostGISLike :=
  {| points := []; points_array := None; kdtree := None |}.

(** The two degree radii of [fast_spatial_query]:
    [lat_radius = radius_km / 111.32] and
    [lon_radius = radius_km / (111.32 * abs(lat_center) * np.pi / 180)]. *)
Definition lat_radius (radius_km : Q) : outcome Q :=
  truediv radius_km km_per_degree.

Definition lon_radius (lat_center radius_km : Q) : outcome Q :=
  truediv radius_km (km_per_degree * Qabs lat_center * np_pi / 180)%Q.

Definition fast_spatial_query (self : FastPostGISLike) (center : point) (radius_km : Q)
  : outcome (list nat) :=
  match kdtree self with
  | None => Returns []
  | Some tree =>
      try_except
        (let '(lat_center, lon_center) := center in
         lat_r <- lat_radius radius_km ;;
         lon_r <- lon_radius lat_center radius_km ;;
         Returns (KDTree.query_ball_point tree center (Py.max lat_r lon_r)))
        (fun _ => Returns [])
  end.

Definition fast_nearest_points (self : FastPostGISLike) (query_points : list point) (k : Z)
  : outcome (list (list nat)) :=
  match kdtree self with
  | None => Returns []
  | Some tree =>
      try_except
        (res <- KDTree.query tree query_points k ;;
         let '(distances, indices) := res in
         if (k =? 1)%Z
         then Returns (map (fun idx => [idx]) (KDTree.squeeze indices))
         else Returns (map (fun idx_list => idx_list) indices))
        (fun _ => Returns [])
  end.

(* ------------------------------------------------------------------ *)
(** ** Bulk load *)

(** A float as the bounding-box filter sees it. *)
Inductive pyfloat : Type :=
| Fin (q : Q)
| PosInf
| NegInf
| NaN.

(** A cell of the [LATITUDE] / [LONGITUDE] columns as read from the CSV:
    missing, or a text which [float()] parses ([Some]) or refuses ([None])
    once the decimal comma is replaced. *)
Inductive cell : Type :=
| Missing
| Text (parsed : option pyfloat).

Record row : Type := mkRow { LATITUDE : cell; LONGITUDE : cell }.

Definition dataframe : Type := list row.

Definition notna (c : cell) : bool :=
  match c with Missing => false | Text _ => true end.

(** [df.dropna(subset=['LATITUDE', 'LONGITUDE'])] *)
Definition dropna (df : dataframe) : dataframe :=
  filter (fun r => notna (LATITUDE r) && notna (LONGITUDE r)) df.

(** [.astype(str).str.replace(',', '.').astype(float)] on one cell. *)
Definition astype_float (c : cell) : outcome pyfloat :=
  match c with
  | Missing => Returns NaN
  | Text (Some f) => Returns f
  | Text None => Raises ValueError
  end.

Fixpoint column_astype_float (col : list cell) : outcome (list pyfloat) :=
  match col with
  | [] => Returns []
  | c :: col' =>
      f <- astype_float c ;;
      fs <- column_astype_float col' ;;
      Returns (f :: fs)
  end.

(** Float comparisons against a finite literal. *)
Definition ge (f : pyfloat) (q : Q) : bool :=
  match f with
  | Fin a => Qle_bool q a
  | PosInf => true
  | NegInf | NaN => false
  end.

Definition le (f : pyfloat) (q : Q) : bool :=
  match f with
  | Fin a => Qle_bool a q
  | NegInf => true
  | PosInf | NaN => false
  end.

(** The row mask of the Sao Paulo filter. *)
Definition in_sao_paulo (lat lon : pyfloat) : bool :=
  ge lat (-24 # 1) && le lat (-23 # 1) && ge lon (-47 # 1) && le lon (-46 # 1).

Definition as_point (lat lon : pyfloat) : option point :=
  match lat, lon with
  | Fin a, Fin b => Some (a, b)
  | _, _ => None
  end.

(** [list(zip(valid_data['LATITUDE'], valid_data['LONGITUDE']))] after the
    mask; a row that passes the mask has two finite coordinates
    ([in_sao_paulo_finite]), so no row is lost to the typing. *)
Fixpoint region_points (lats lons : list pyfloat) : list point :=
  match lats, lons with
  | lat :: lats', lon :: lons' =>
      if in_sao_paulo lat lon
      then match as_point lat lon with
           | Some p => p :: region_points lats' lons'
           | None => region_points lats' lons'
           end
      else region_points lats' lons'
  | _, _ => []
  end.

(** [bulk_insert_points(csv_path)]: [csv] is what [pd.read_csv(csv_path)]
    yields ([None] when it raises).  The result is the returned flag and the
    object's state afterwards; the timing prints are left out. *)
Definition bulk_insert_points (self : FastPostGISLike) (csv : option dataframe)
  : bool * FastPostGISLike :=
  match csv with
  | None => (false, self)
  | Some df =>
      let valid_data := dropna df in
      match (lats <- column_astype_float (map LATITUDE valid_data) ;;
             lons <- column_astype_float (map LONGITUDE valid_data) ;;
             Returns (lats, lons)) with
      | Raises _ => (false, self)
      | Returns (lats, lons) =>
          let pts := region_points lats lons in
          let self1 := {| points := pts; points_array := Some pts;
                          kdtree := kdtree self |} in
          match KDTree.cKDTree pts with
          | Raises _ => (false, self1)
          | Returns tree =>
              (true, {| points := pts; points_array := Some pts;
                        kdtree := Some tree |})
          end
      end
  end.

(* ------------------------------------------------------------------ *)
(** ** Nearest-node assignment (voronoi_optimized.py, voronoi_assignment.py) *)

(** The attributes of a graph node: ['y'] (latitude) and ['x'] (longitude),
    either of which may be absent. *)
Record node_data : Type := mkNode { y : option Q; x : option Q }.

(** [G.nodes(data=True)] *)
Definition graph_nodes : Type := list (Z * node_data).

(** The loop filling [node_coords] and [node_ids]. *)
Fixpoint extract_nodes (nodes : graph_nodes) : list point * list Z :=
  match nodes with
  | [] => ([], [])
  | (node_id, data) :: rest =>
      let '(node_coords, node_ids) := extract_nodes rest in
      match y data, x data with
      | Some lat, Some lon => ((lat, lon) :: node_coords, node_id :: node_ids)
      | _, _ => (node_coords, node_ids)
      end
  end.

Record assignment : Type := mkAssignment {
  crime_point : point;
  nearest_node_id : Z;
  distance : dist
}.

(** The [assignments] dict, in insertion order. *)
Definition assignments : Type := list (nat * assignment).

(** [d[key] = v]: overwrite in place, or append a new key. *)
Fixpoint dict_set (d : assignments) (key : nat) (v : assignment) : assignments :=
  match d with
  | [] => [(key, v)]
  | (k', v') :: d' =>
      if k' =? key then (k', v) :: d' else (k', v') :: dict_set d' key v
  end.

(** [voronoi_optimized.create_optimized_voronoi_assignment], from the
    extraction of the node coordinates to the filled [assignments]
    (lines 51-101).  [analyzer_points] is [analyzer.points] after the bulk
    load; [batch_size] is the local constant [10000] of the source, taken
    as a parameter so that chunk sizes can be compared. *)
Definition create_optimized_voronoi_assignment
    (batch_size : nat) (analyzer_points : list point) (nodes : graph_nodes)
  : outcome assignments :=
  let '(node_coords, node_ids) := extract_nodes nodes in
  node_kdtree <- KDTree.cKDTree node_coords ;;
  let crime_points := analyzer_points in
  starts <- range3 0 (length crime_points) batch_size ;;
  for_each starts
    (fun assignments i =>
       let batch_end := Nat.min (i + batch_size) (length crime_points) in
       let batch_crime := slice crime_points i batch_end in
       res <- KDTree.query node_kdtree batch_crime 1 ;;
       let distances := KDTree.squeeze (fst res) in
       let nearest_indices := KDTree.squeeze (snd res) in
       for_each (enumerate (combine batch_crime (combine nearest_indices distances)))
         (fun assignments jt =>
            let '(j, (crime_point, (nearest_idx, distance))) := jt in
            let global_idx := i + j in
            node_id <- getitem node_ids nearest_idx ;;
            Returns (dict_set assignments global_idx
                       (mkAssignment crime_point node_id distance)))
         assignments)
    [].

(** The same function, lines 51-101, with the library's order among
    equidistant points left open ([KDTree.query_by order] for
    [node_kdtree.query]); [create_optimized_voronoi_assignment] is its
    instance for [KDTree.by_distance]. *)
Definition create_optimized_voronoi_assignment_by
    (order : KDTree.t -> point -> list (nat * point))
    (batch_size : nat) (analyzer_points : list point) (nodes : graph_nodes)
  : outcome assignments :=
  let '(node_coords, node_ids) := extract_nodes nodes in
  node_kdtree <- KDTree.cKDTree node_coords ;;
  let crime_points := analyzer_points in
  starts <- range3 0 (length crime_points) batch_size ;;
  for_each starts
    (fun assignments i =>
       let batch_end := Nat.min (i + batch_size) (length crime_points) in
       let batch_crime := slice crime_points i batch_end in
       res <- KDTree.query_by order node_kdtree batch_crime 1 ;;
       let distances := KDTree.squeeze (fst res) in
       let nearest_indices := KDTree.squeeze (snd res) in
       for_each (enumerate (combine batch_crime (combine nearest_indices distances)))
         (fun assignments jt =>
            let '(j, (crime_point, (nearest_idx, distance))) := jt in
            let global_idx := i + j in
            node_id <- getitem node_ids nearest_idx ;;
            Returns (dict_set assignments global_idx
                       (mkAssignment crime_point node_id distance)))
         assignments)
    [].

(** [scipy.spatial.distance.cdist(XA, XB)]: the matrix of Euclidean
    distances; both arguments must be two-dimensional, which an empty list
    of points is not. *)
Definition cdist (XA XB : list point) : outcome (list (list dist)) :=
  match XA, XB with
  | _ :: _, _ :: _ =>
      Returns (map (fun a => map (fun b => Sqrt (KDTree.dist2 a b)) XB) XA)
  | _, _ => Raises ValueError
  end.

(** Order of distances. *)
Definition dist_ltb (a b : dist) : bool :=
  match a, b with
  | Sqrt p, Sqrt q => negb (Qle_bool q p)
  | Sqrt _, Inf => true
  | Inf, _ => false
  end.

(** [np.argmin] of one row: the first index of the minimum. *)
Fixpoint argmin_from (best_i : nat) (best : dist) (i : nat) (row : list dist) : nat :=
  match row with
  | [] => best_i
  | d :: row' =>
      if dist_ltb d best then argmin_from i d (S i) row'
      else argmin_from best_i best (S i) row'
  end.

Definition argmin (row : list dist) : outcome nat :=
  match row with
  | [] => Raises ValueError
  | d :: row' => Returns (argmin_from 0 d 1 row')
  end.

Fixpoint map_M {A B : Type} (f : A -> outcome B) (l : list A) : outcome (list B) :=
  match l with
  | [] => Returns []
  | a :: l' =>
      b <- f a ;;
      bs <- map_M f l' ;;
      Returns (b :: bs)
  end.

(** [scipy.spatial.Voronoi], as far as the repository observes it: the
    construction returns a diagram or raises.  Qhull needs an initial
    simplex, that is three input points that are not on one line;
    otherwise it raises [QhullError].  An empty list of points is a
    one-dimensional array and is refused with [ValueError]. *)
Module Qhull.

(** [a], [b] and [c] are on one line. *)
Definition collinear (a b c : point) : bool :=
  Qeq_bool ((fst b - fst a) * (snd c - snd a) - (snd b - snd a) * (fst c - fst a))%Q 0.

Definition Voronoi (points : list point) : outcome unit :=
  match points with
  | [] => Raises ValueError
  | a :: rest =>
      if existsb (fun b => existsb (fun c => negb (collinear a b c)) rest) rest
      then Returns tt
      else Raises QhullError
  end.

End Qhull.

(** [voronoi_assignment.create_voronoi_assignment], lines 53-105: the
    extraction of the node coordinates, the Voronoi diagram, whose failure
    makes the function return [None] (lines 71-79), then the full distance
    matrix, its row-wise [argmin] and the [assignments] dict, returned in
    the last component of the result.  The diagram itself takes no part in
    the assignment.  [Voronoi] is the library's constructor, a parameter:
    the function is read for whatever the library does ([Qhull.Voronoi] on
    the sample inputs).  The loading of the points, the printed statistics
    and the plots are left out. *)
Definition create_voronoi_assignment
    (Voronoi : list point -> outcome unit)
    (analyzer_points : list point) (nodes : graph_nodes)
  : outcome (option assignments) :=
  let '(node_coords, node_ids) := extract_nodes nodes in
  match Voronoi node_coords with
  | Raises _ => Returns None
  | Returns vor =>
      let crime_points := analyzer_points in
      distances <- cdist crime_points node_coords ;;
      nearest_node_indices <- map_M argmin distances ;;
      nearest_node_ids <- map_M (getitem node_ids) nearest_node_indices ;;
      assignments <-
        for_each (enumerate (combine crime_points nearest_node_ids))
          (fun assignments it =>
             let '(i, (crime_point, nearest_node_id)) := it in
             row_i <- getitem distances i ;;
             idx_i <- getitem nearest_node_indices i ;;
             d <- getitem row_i idx_i ;;
             Returns (dict_set assignments i
                        (mkAssignment crime_point nearest_node_id d)))
          [] ;;
      Returns (Some assignments)
  end.

(* ------------------------------------------------------------------ *)
(** ** Notions used in the statements *)

(** Squared distance from [q] to the indexed point of identity [i]. *)
Definition dist_to (tree : KDTree.t) (q : point) (i : nat) : Q :=
  KDTree.dist2 q (nth i (KDTree.data tree) (0, 0)%Q).

(** The kilometres the code takes for one degree of longitude at the
    latitude of the centre (the divisor in [lon_radius]), and the squared
    distance in kilometres this linearisation gives between the centre and a
    point. *)
Definition km_per_lon_degree (lat_center : Q) : Q :=
  (km_per_degree * Qabs lat_center * np_pi / 180)%Q.

Definition linearized_km2 (center p : point) : Q :=
  (((fst center - fst p) * km_per_degree) * ((fst center - fst p) * km_per_degree) +
   ((snd center - snd p) * km_per_lon_degree (fst center)) *
   ((snd center - snd p) * km_per_lon_degree (fst center)))%Q.

(** The accepting box of the bulk load. *)
Definition in_box (p : point) : Prop :=
  (-24 # 1 <= fst p)%Q /\ (fst p <= -23 # 1)%Q /\
  (-47 # 1 <= snd p)%Q /\ (snd p <= -46 # 1)%Q.

(** The point a record contributes, if any: both coordinates finite and
    inside the box. *)
Definition row_point (r : row) : option point :=
  match LATITUDE r, LONGITUDE r with
  | Text (Some (Fin a)), Text (Some (Fin b)) =>
      if Qle_bool (-24 # 1) a && Qle_bool a (-23 # 1) &&
         Qle_bool (-47 # 1) b && Qle_bool b (-46 # 1)
      then Some (a, b) else None
  | _, _ => None
  end.

(** The accepted records of a CSV, in input order, and the number of the
    others. *)
Definition accepted (df : dataframe) : list point :=
  flat_map (fun r => match row_point r with Some p => [p] | None => [] end) df.

Definition rejected_count (df : dataframe) : nat :=
  length df - length (accepted df).

(** No coordinate text of a complete record is refused by [float()]. *)
Definition parses (r : row) : Prop :=
  notna (LATITUDE r) && notna (LONGITUDE r) = true ->
  LATITUDE r <> Text None /\ LONGITUDE r <> Text None.

(** The first minimum of a list for [key]. *)
Fixpoint first_min (A : Type) (key : A -> Q) (l : list A) : option A :=
  match l with
  | [] => None
  | a :: l' =>
      match first_min key l' with
      | Some m => if Qle_bool (key a) (key m) then Some a else Some m
      | None => Some a
      end
  end.

(** The reference point nearest to a subject point (the first one among
    equidistant ones), its identity and its distance. *)
Definition nearest (node_coords : list point) (cp : point) : option (nat * point) :=
  first_min (fun ip => KDTree.dist2 cp (snd ip)) (enumerate node_coords).

Definition near_idx (node_coords : list point) (cp : point) : nat :=
  match nearest node_coords cp with Some (j, _) => j | None => 0 end.

Definition near_dist (node_coords : list point) (cp : point) : dist :=
  match nearest node_coords cp with
  | Some (_, p) => Sqrt (KDTree.dist2 cp p)
  | None => Inf
  end.

(** The assignment record of one subject point, and the records of a
    subject sequence keyed by position. *)
Definition record_of (node_coords : list point) (node_ids : list Z) (cp : point)
  : assignment :=
  mkAssignment cp (nth (near_idx node_coords cp) node_ids 0%Z)
               (near_dist node_coords cp).

Definition assigned (node_coords : list point) (node_ids : list Z)
    (crime_points : list point) : assignments :=
  enumerate (map (record_of node_coords node_ids) crime_points).

(** [j] is the identity of a reference point nearest to [cp]: no
    reference point is closer. *)
Definition is_nearest (node_coords : list point) (cp : point) (j : nat) : Prop :=
  j < length node_coords /\
  forall j', j' < length node_coords ->
    (dist_to (KDTree.Build node_coords) cp j <=
     dist_to (KDTree.Build node_coords) cp j')%Q.

(** What the library answers for one subject point under a given order:
    the head of its list, as [query] with [k = 1] reports it (the filler
    [(inf, n)] for an empty list). *)
Definition first_by (order : KDTree.t -> point -> list (nat * point))
    (node_coords : list point) (cp : point) : option (nat * point) :=
  hd_error (order (KDTree.Build node_coords) cp).

Definition idx_by (order : KDTree.t -> point -> list (nat * point))
    (node_coords : list point) (cp : point) : nat :=
  match first_by order node_coords cp with
  | Some (j, _) => j
  | None => length node_coords
  end.

Definition dist_by (order : KDTree.t -> point -> list (nat * point))
    (node_coords : list point) (cp : point) : dist :=
  match first_by order node_coords cp with
  | Some (_, p) => Sqrt (KDTree.dist2 cp p)
  | None => Inf
  end.

Definition record_by (order : KDTree.t -> point -> list (nat * point))
    (node_coords : list point) (node_ids : list Z) (cp : point) : assignment :=
  mkAssignment cp (nth (idx_by order node_coords cp) node_ids 0%Z)
               (dist_by order node_coords cp).

Definition assigned_by (order : KDTree.t -> point -> list (nat * point))
    (node_coords : list point) (node_ids : list Z) (crime_points : list point)
  : assignments :=
  enumerate (map (record_by order node_coords node_ids) crime_points).

(** The longitude radius in the specification's words:
    [radius_km * 1 / (111.32 * cos(latitude of the centre in radians))],
    over the reals, for comparison with [lon_radius]. *)
Definition spec_lon_degree_radius (lat_center_deg radius_km : R) : R :=
  (radius_km * (1 / (11132 / 100 * cos (lat_center_deg * PI / 180))))%R.

(** ** Sample inputs *)

Definition num (q : Q) : cell := Text (Some (Fin q)).

(** One record in the centre of Sao Paulo. *)
Definition csv_one : dataframe := [ mkRow (num (-2355 # 100)) (num (-4663 # 100)) ].

(** The same record followed by one outside the box. *)
Definition csv_one_and_outlier : dataframe :=
  [ mkRow (num (-2355 # 100)) (num (-4663 # 100));
    mkRow (num (4885 # 100)) (num (235 # 100)) ].

(** Three accepted records among missing, non-finite and far-away ones. *)
Definition csv_mixed : dataframe :=
  [ mkRow (num (-235 # 10)) (num (-465 # 10));
    mkRow (num (-236 # 10)) (num (-466 # 10));
    mkRow (num (-236 # 10)) (num (-566 # 10));
    mkRow Missing (num (-466 # 10));
    mkRow (num (-237 # 10)) (Text (Some PosInf));
    mkRow (num (-238 # 10)) (num (-461 # 10)) ].

(** Two reference nodes (and one without coordinates) and two subjects:
    scenario 1 of the specification. *)
Definition nodes_sample : graph_nodes :=
  [ (100%Z, mkNode (Some 0%Q) (Some 0%Q));
    (101%Z, mkNode None (Some 5%Q));
    (102%Z, mkNode (Some 0%Q) (Some 10%Q)) ].

Definition subjects_sample : list point := [(0, 4)%Q; (0, 6)%Q; (0, 5)%Q].

(** Five reference nodes, the corners of a square and a point inside it
    (and one node without coordinates); the third subject of
    [subjects_sample] is equidistant from nodes 100 and 102. *)
Definition nodes_square : graph_nodes :=
  [ (100%Z, mkNode (Some 0%Q) (Some 0%Q));
    (101%Z, mkNode None (Some 5%Q));
    (102%Z, mkNode (Some 0%Q) (Some 10%Q));
    (103%Z, mkNode (Some 10%Q) (Some 0%Q));
    (104%Z, mkNode (Some 10%Q) (Some 10%Q));
    (105%Z, mkNode (Some 7%Q) (Some 6%Q)) ].

Definition loaded (df : dataframe) : FastPostGISLike :=
  snd (bulk_insert_points init (Some df)).

(* ------------------------------------------------------------------ *)
(** ** CrimeDataProcessor.process (data/csv_handler.py) *)

(** The coordinates kept by the processor: the same three steps as the bulk
    load (drop missing, convert, keep the box), any exception giving the
    empty list. *)
Definition process (data : dataframe) : list point :=
  let valid_data := dropna data in
  match (lats <- column_astype_float (map LATITUDE valid_data) ;;
         lons <- column_astype_float (map LONGITUDE valid_data) ;;
         Returns (region_points lats lons)) with
  | Returns coordinates => coordinates
  | Raises _ => []
  end.

(* ------------------------------------------------------------------ *)
(** ** Node statistics (voronoi_optimized.py, voronoi_assignment.py,
       voronoi_real.py) *)

(** A dict keyed by node identifiers, in insertion order. *)
Definition node_dict (V : Type) : Type := list (Z * V).

(** [d.get(key)], [None] when the key is absent. *)
Fixpoint node_dict_get (V : Type) (d : node_dict V) (key : Z) : option V :=
  match d with
  | [] => None
  | (k', v') :: d' => if (k' =? key)%Z then Some v' else node_dict_get d' key
  end.

(** [d[key] = v] *)
Fixpoint node_dict_set (V : Type) (d : node_dict V) (key : Z) (v : V) : node_dict V :=
  match d with
  | [] => [(key, v)]
  | (k', v') :: d' =>
      if (k' =? key)%Z then (k', v) :: d' else (k', v') :: node_dict_set d' key v
  end.

(** [d.get(key, default)] *)
Definition get_default (V : Type) (d : node_dict V) (key : Z) (default : V) : V :=
  match node_dict_get d key with
  | Some v => v
  | None => default
  end.

(** Builtin [max] of a sequence: [ValueError] on an empty one. *)
Definition max_of (l : list nat) : outcome nat :=
  match l with
  | [] => Raises ValueError
  | a :: l' => Returns (fold_left Nat.max l' a)
  end.

(** The counting loop of [analyze_node_crime_density]. *)
Definition count_by_node (assignments : assignments) : node_dict nat :=
  fold_left
    (fun node_crime_count kv =>
       let node_id := nearest_node_id (snd kv) in
       node_dict_set node_crime_count node_id
                     (get_default node_crime_count node_id 0 + 1))
    assignments [].

(** [analyze_node_crime_density(assignments)]: the counts per node; the
    statistics printed on the way take [max(crime_counts)]. *)
Definition analyze_node_crime_density (assignments : assignments)
  : outcome (node_dict nat) :=
  let node_crime_count := count_by_node assignments in
  let crime_counts := map snd node_crime_count in
  _ <- max_of crime_counts ;;
  Returns node_crime_count.

(** The loop of [create_crime_heatmap_optimized] (and of
    [create_crime_heatmap]) that fills [crime_counts], one entry per node
    with coordinates. *)
Fixpoint heatmap_crime_counts (nodes : graph_nodes) (node_crime_count : node_dict nat)
  : list nat :=
  match nodes with
  | [] => []
  | (node_id, data) :: rest =>
      match y data, x data with
      | Some lat, Some lon =>
          get_default node_crime_count node_id 0
            :: heatmap_crime_counts rest node_crime_count
      | _, _ => heatmap_crime_counts rest node_crime_count
      end
  end.

(** The dict [node_id_to_coords] of [visualize_optimized_assignment]. *)
Definition node_id_to_coords (nodes : graph_nodes) : node_dict point :=
  fold_left
    (fun d nd =>
       let '(node_id, data) := nd in
       match y data, x data with
       | Some lat, Some lon => node_dict_set d node_id (lat, lon)
       | _, _ => d
       end)
    nodes [].

(** [voronoi_real.create_kdtree_fallback]: one query for all the points. *)
Definition create_kdtree_fallback
    (analyzer_points : list point) (node_coords : list point) (node_ids : list Z)
  : outcome assignments :=
  node_kdtree <- KDTree.cKDTree node_coords ;;
  let crime_points := analyzer_points in
  res <- KDTree.query node_kdtree crime_points 1 ;;
  let distances := KDTree.squeeze (fst res) in
  let nearest_indices := KDTree.squeeze (snd res) in
  for_each (enumerate (combine crime_points (combine nearest_indices distances)))
    (fun assignments it =>
       let '(i, (crime_point, (nearest_idx, distance))) := it in
       node_id <- getitem node_ids nearest_idx ;;
       Returns (dict_set assignments i (mkAssignment crime_point node_id distance)))
    [].

(* ------------------------------------------------------------------ *)
(** ** GeoJSON export (FastPostGISLike.export_to_geojson) *)

(** One feature: its ["id"] property and the ["coordinates"] of its point
    geometry. *)
Record feature : Type := mkFeature {
  feature_id : nat;
  coordinates : list Q
}.

(** The [features] list built by [export_to_geojson]; the writing of the
    file is left out. *)
Definition geojson_features (self : FastPostGISLike) : list feature :=
  map (fun ip => let '(i, (lat, lon)) := ip in mkFeature i [lon; lat])
      (enumerate (points self)).

(* ------------------------------------------------------------------ *)
(** ** CGALWrapper.point_in_polygon (geometry/cgal_wrapper.py) *)

Module Polygon.

(** What the body of the method can raise. *)
Inductive error : Type :=
| EmptyPolygon        (* [polygon[0]] on an empty list: IndexError *)
| DivisionByZero      (* ZeroDivisionError *)
| Unbound.            (* [xinters] read before assignment: UnboundLocalError *)

Definition result (A : Type) : Type := (error + A)%type.

(** Builtin [min(a, b)]: [b] when [b < a], else [a]. *)
Definition min (a b : Q) : Q := if Qle_bool a b then a else b.

(** The local variables that live across the turns of the loop. *)
Record locals : Type := mkLocals {
  inside : bool;
  p1x : Q;
  p1y : Q;
  xinters : option Q
}.

(** One turn of the loop, for the next vertex [(p2x, p2y)]. *)
Definition step (x y : Q) (st : locals) (p2 : point) : result locals :=
  let '(p2x, p2y) := p2 in
  let next (inside' : bool) (xinters' : option Q) : result locals :=
    inr (mkLocals inside' p2x p2y xinters') in
  if negb (Qle_bool y (min (p1y st) p2y)) then
    if Qle_bool y (Py.max (p1y st) p2y) then
      if Qle_bool x (Py.max (p1x st) p2x) then
        match (if negb (Qeq_bool (p1y st) p2y)
               then if Qeq_bool (p2y - p1y st) 0 then inl DivisionByZero
                    else inr (Some ((y - p1y st) * (p2x - p1x st) / (p2y - p1y st)
                                    + p1x st)%Q)
               else inr (xinters st)) with
        | inl e => inl e
        | inr xinters' =>
            if Qeq_bool (p1x st) p2x then next (negb (inside st)) xinters'
            else match xinters' with
                 | None => inl Unbound
                 | Some xi =>
                     if Qle_bool x xi then next (negb (inside st)) xinters'
                     else next (inside st) xinters'
                 end
        end
      else next (inside st) (xinters st)
    else next (inside st) (xinters st)
  else next (inside st) (xinters st).

Fixpoint loop (x y : Q) (st : locals) (vertices : list point) : result locals :=
  match vertices with
  | [] => inr st
  | p2 :: rest =>
      match step x y st p2 with
      | inl e => inl e
      | inr st' => loop x y st' rest
      end
  end.

(** The body of the [try]: [polygon[i % n]] for [i = 1 .. n]. *)
Definition body (pt : point) (polygon : list point) : result bool :=
  let '(x, y) := pt in
  let n := length polygon in
  match polygon with
  | [] => inl EmptyPolygon
  | p1 :: _ =>
      let vertices := map (fun i => nth (i mod n) polygon p1) (seq 1 n) in
      match loop x y (mkLocals false (fst p1) (snd p1) None) vertices with
      | inl e => inl e
      | inr st => inr (inside st)
      end
  end.

(** [point_in_polygon(point, polygon)]: any exception gives [False]. *)
Definition point_in_polygon (pt : point) (polygon : list point) : bool :=
  match body pt polygon with
  | inr b => b
  | inl _ => false
  end.

(** The four corners of an axis-parallel rectangle, counter-clockwise. *)
Definition rectangle (x0 y0 x1 y1 : Q) : list point :=
  [(x0, y0); (x1, y0); (x1, y1); (x0, y1)].

End Polygon.

(** The number of assignments whose nearest node is [k]. *)
Definition crimes_at (k : Z) (assignments : assignments) : nat :=
  count_occ Z.eq_dec (map (fun kv => nearest_node_id (snd kv)) assignments) k.

(** The radius handed to the index: the larger of the two degree radii
    (off the equator, where both divisions succeed). *)
Definition lookup_radius (lat_center radius_km : Q) : Q :=
  Py.max (radius_km / km_per_degree)%Q (radius_km / km_per_lon_degree lat_center)%Q.

(** Whether the edge from [p1] to [p2] flips [inside] for the point
    [(x, y)], and the parity of the flips along a path of vertices. *)
Definition flips (x y : Q) (p1 p2 : point) : bool :=
  negb (Qle_bool y (Polygon.min (snd p1) (snd p2))) &&
  Qle_bool y (Py.max (snd p1) (snd p2)) &&
  Qle_bool x (Py.max (fst p1) (fst p2)) &&
  (Qeq_bool (fst p1) (fst p2) ||
   Qle_bool x ((y - snd p1) * (fst p2 - fst p1) / (snd p2 - snd p1) + fst p1)%Q).

Fixpoint crossings (x y : Q) (p1 : point) (vertices : list point) : bool :=
  match vertices with
  | [] => false
  | p2 :: rest => xorb (flips x y p1 p2) (crossings x y p2 rest)
  end.

(* ================================================================== *)
(** * Properties *)

(** ** Lists, [enumerate] and the monad *)

Lemma enumerate_from_nth_error (A : Type) (l : list A) (s i : nat) (a : A) :
  In (i, a) (combine (seq s (length l)) l) <->
  s <= i /\ nth_error l (i - s) = Some a.
Proof.
  revert s; induction l as [| b l IH]; intros s; simpl.
  - split; [tauto | intros [_ H]; destruct (i - s); discriminate].
  - rewrite IH. split.
    + intros [H | [Hle Hn]].
      * inversion H; subst. rewrite Nat.sub_diag. split; [lia | reflexivity].
      * split; [lia |]. replace (i - s) with (S (i - S s)) by lia. exact Hn.
    + intros [Hle Hn]. destruct (Nat.eq_dec i s) as [-> | Hne].
      * rewrite Nat.sub_diag in Hn. simpl in Hn. left. congruence.
      * right. split; [lia |].
        replace (i - s) with (S (i - S s)) in Hn by lia. exact Hn.
Qed.

Lemma In_enumerate (A : Type) (l : list A) (i : nat) (a : A) :
  In (i, a) (enumerate l) <-> nth_error l i = Some a.
Proof.
  unfold enumerate. rewrite enumerate_from_nth_error, Nat.sub_0_r.
  split; [tauto | intros H; split; [lia | exact H]].
Qed.

Lemma map_fst_enumerate (A : Type) (l : list A) :
  map fst (enumerate l) = seq 0 (length l).
Proof.
  unfold enumerate. generalize 0.
  induction l as [| a l IH]; intros s; simpl; [reflexivity |].
  now rewrite IH.
Qed.

Lemma map_snd_enumerate (A : Type) (l : list A) : map snd (enumerate l) = l.
Proof.
  unfold enumerate. generalize 0.
  induction l as [| a l IH]; intros s; simpl; [reflexivity |]. now rewrite IH.
Qed.

Lemma nth_error_enumerate (A : Type) (l : list A) (g : nat) :
  nth_error (enumerate l) g = option_map (fun a => (g, a)) (nth_error l g).
Proof.
  unfold enumerate.
  assert (H : forall s, nth_error (combine (seq s (length l)) l) g =
                        option_map (fun a => (s + g, a)) (nth_error l g)).
  { revert g. induction l as [| a l IH]; intros g s.
    - destruct g; reflexivity.
    - destruct g as [| g]; simpl.
      + now rewrite Nat.add_0_r.
      + rewrite IH. now rewrite Nat.add_succ_r. }
  apply H.
Qed.

Lemma length_enumerate (A : Type) (l : list A) :
  length (enumerate l) = length l.
Proof.
  unfold enumerate. now rewrite length_combine, length_seq, Nat.min_id.
Qed.

(** ** The index: range lookup *)

Lemma In_query_ball_point (tree : KDTree.t) (c : point) (r : Q) (i : nat) :
  In i (KDTree.query_ball_point tree c r) <->
  exists p, nth_error (KDTree.data tree) i = Some p /\ KDTree.within c r p = true.
Proof.
  unfold KDTree.query_ball_point. rewrite in_map_iff. split.
  - intros [[j p] [Hj Hin]]. simpl in Hj; subst j.
    apply filter_In in Hin. destruct Hin as [Hin Hw].
    apply In_enumerate in Hin. now exists p.
  - intros [p [Hn Hw]]. exists (i, p). split; [reflexivity |].
    apply filter_In. split; [now apply In_enumerate | exact Hw].
Qed.

(** ** The index: neighbours by distance *)

Section SortByFacts.
Variable A : Type.
Variable key : A -> Q.

Let le_key (a b : A) : Prop := (key a <= key b)%Q.

Lemma insert_by_perm (a : A) (l : list A) :
  Permutation (KDTree.insert_by key a l) (a :: l).
Proof.
  induction l as [| b l IH]; simpl; [reflexivity |].
  destruct (Qle_bool (key a) (key b)); [reflexivity |].
  rewrite IH. apply perm_swap.
Qed.

Lemma sort_by_perm (l : list A) : Permutation (KDTree.sort_by key l) l.
Proof.
  induction l as [| a l IH]; simpl; [reflexivity |].
  rewrite insert_by_perm. now constructor.
Qed.

Lemma insert_by_sorted (a : A) (l : list A) :
  StronglySorted le_key l -> StronglySorted le_key (KDTree.insert_by key a l).
Proof.
  induction 1 as [| b l Hs IH Hb]; simpl.
  - constructor; constructor.
  - destruct (Qle_bool (key a) (key b)) eqn:E.
    + apply Qle_bool_iff in E. constructor.
      * now constructor.
      * constructor; [exact E |].
        eapply Forall_impl; [| exact Hb].
        intros c Hc. unfold le_key in *. now apply Qle_trans with (key b).
    + assert (Hlt : (key b <= key a)%Q).
      { destruct (Qlt_le_dec (key b) (key a)) as [H | H].
        - now apply Qlt_le_weak.
        - apply Qle_bool_iff in H. congruence. }
      constructor; [exact IH |].
      rewrite Forall_forall. intros c Hc.
      apply (Permutation_in _ (insert_by_perm a l)) in Hc.
      destruct Hc as [<- | Hc]; [exact Hlt |].
      rewrite Forall_forall in Hb. now apply Hb.
Qed.

Lemma sort_by_sorted (l : list A) : StronglySorted le_key (KDTree.sort_by key l).
Proof.
  induction l as [| a l IH]; simpl; [constructor |].
  now apply insert_by_sorted.
Qed.

Lemma sorted_app_le (l1 l2 : list A) :
  StronglySorted le_key (l1 ++ l2) ->
  forall a b, In a l1 -> In b l2 -> (key a <= key b)%Q.
Proof.
  induction l1 as [| c l1 IH]; simpl; intros Hs a b Ha Hb; [contradiction |].
  inversion Hs as [| ? ? Hs' Hall]; subst.
  destruct Ha as [<- | Ha].
  - rewrite Forall_forall in Hall. apply Hall, in_or_app. now right.
  - now apply IH.
Qed.

Lemma sorted_app_l (l1 l2 : list A) :
  StronglySorted le_key (l1 ++ l2) -> StronglySorted le_key l1.
Proof.
  induction l1 as [| c l1 IH]; simpl; intros Hs; [constructor |].
  inversion Hs as [| ? ? Hs' Hall]; subst. constructor; [now apply IH |].
  rewrite Forall_forall in *. intros d Hd. apply Hall, in_or_app. now left.
Qed.
End SortByFacts.

Lemma StronglySorted_nth (A : Type) (R : A -> A -> Prop) (l : list A) :
  StronglySorted R l ->
  forall a b u v, a < b -> nth_error l a = Some u -> nth_error l b = Some v -> R u v.
Proof.
  induction 1 as [| c l Hs IH Hc]; intros a b u v Hab Ha Hb.
  - destruct a; discriminate.
  - destruct b as [| b]; [lia |]. simpl in Hb.
    destruct a as [| a]; simpl in Ha.
    + inversion Ha; subst. rewrite Forall_forall in Hc.
      eapply Hc, nth_error_In, Hb.
    + apply (IH a b u v); [lia | exact Ha | exact Hb].
Qed.

Lemma by_distance_perm (tree : KDTree.t) (q : point) :
  Permutation (KDTree.by_distance tree q) (enumerate (KDTree.data tree)).
Proof. apply sort_by_perm. Qed.

Lemma by_distance_length (tree : KDTree.t) (q : point) :
  length (KDTree.by_distance tree q) = KDTree.n tree.
Proof.
  rewrite (Permutation_length (by_distance_perm tree q)).
  apply length_enumerate.
Qed.

Lemma by_distance_In (tree : KDTree.t) (q : point) (i : nat) (p : point) :
  In (i, p) (KDTree.by_distance tree q) <-> nth_error (KDTree.data tree) i = Some p.
Proof.
  rewrite <- In_enumerate. split; apply Permutation_in.
  - apply by_distance_perm.
  - symmetry. apply by_distance_perm.
Qed.

Lemma by_distance_key (tree : KDTree.t) (q : point) (ip : nat * point) :
  In ip (KDTree.by_distance tree q) ->
  KDTree.dist2 q (snd ip) = dist_to tree q (fst ip).
Proof.
  destruct ip as [i p]. intros H. apply by_distance_In in H. simpl.
  unfold dist_to. now rewrite (nth_error_nth _ _ _ H).
Qed.

Lemma by_distance_ids_perm (tree : KDTree.t) (q : point) :
  Permutation (map fst (KDTree.by_distance tree q)) (seq 0 (KDTree.n tree)).
Proof.
  rewrite (Permutation_map fst (by_distance_perm tree q)).
  now rewrite map_fst_enumerate.
Qed.

Lemma query_row_length (tree : KDTree.t) (q : point) (k : nat) :
  length (snd (KDTree.query_row tree q k)) = k /\
  length (fst (KDTree.query_row tree q k)) = k.
Proof.
  unfold KDTree.query_row; simpl.
  rewrite !length_app, !length_map, !repeat_length.
  assert (length (firstn k (KDTree.by_distance tree q)) <= k)
    by (rewrite length_firstn; lia).
  lia.
Qed.

Lemma query_row_full (tree : KDTree.t) (q : point) (k : nat) :
  k <= KDTree.n tree ->
  snd (KDTree.query_row tree q k) = map fst (firstn k (KDTree.by_distance tree q)).
Proof.
  intros Hk. unfold KDTree.query_row; simpl.
  rewrite length_firstn, by_distance_length.
  replace (k - Nat.min k (KDTree.n tree)) with 0 by lia.
  simpl. apply app_nil_r.
Qed.

(** What a row of [query] holds when the index has at least [k] points. *)
Lemma query_row_nearest (tree : KDTree.t) (q : point) (k : nat) :
  k <= KDTree.n tree ->
  let row := snd (KDTree.query_row tree q k) in
  length row = k /\
  NoDup row /\
  Forall (fun i => i < KDTree.n tree) row /\
  (forall a b ia ib, a <= b ->
     nth_error row a = Some ia -> nth_error row b = Some ib ->
     (dist_to tree q ia <= dist_to tree q ib)%Q) /\
  (forall i i', In i row -> i' < KDTree.n tree -> ~ In i' row ->
     (dist_to tree q i <= dist_to tree q i')%Q).
Proof.
  intros Hk row.
  assert (Hrow : row = map fst (firstn k (KDTree.by_distance tree q)))
    by (apply query_row_full; exact Hk).
  pose proof (by_distance_ids_perm tree q) as Hperm.
  pose proof (sort_by_sorted (fun ip => KDTree.dist2 q (snd ip))
                (enumerate (KDTree.data tree))) as Hsorted.
  fold (KDTree.by_distance tree q) in Hsorted.
  set (l := KDTree.by_distance tree q) in *.
  assert (Hnd : NoDup (map fst l)).
  { eapply Permutation_NoDup; [symmetry; exact Hperm | apply seq_NoDup]. }
  rewrite <- (firstn_skipn k l) in Hnd, Hsorted.
  rewrite map_app in Hnd.
  assert (Hin : forall ip, In ip (firstn k l) -> In ip l)
    by (intros ip H; rewrite <- (firstn_skipn k l); apply in_or_app; now left).
  repeat split.
  - apply (proj1 (query_row_length tree q k)).
  - rewrite Hrow. now apply NoDup_app_remove_r in Hnd.
  - rewrite Hrow, Forall_forall. intros i Hi.
    assert (In i (seq 0 (KDTree.n tree))) as Hs.
    { apply (Permutation_in _ Hperm). apply in_map_iff in Hi.
      destruct Hi as [ip [<- Hip]]. apply in_map, Hin, Hip. }
    apply in_seq in Hs. lia.
  - intros a b ia ib Hab Ha Hb. rewrite Hrow in Ha, Hb.
    rewrite nth_error_map in Ha, Hb.
    destruct (nth_error (firstn k l) a) as [u |] eqn:Hu; [| discriminate].
    destruct (nth_error (firstn k l) b) as [v |] eqn:Hv; [| discriminate].
    simpl in Ha, Hb. inversion Ha; inversion Hb; subst ia ib.
    rewrite <- (by_distance_key tree q u) by (eapply Hin, nth_error_In, Hu).
    rewrite <- (by_distance_key tree q v) by (eapply Hin, nth_error_In, Hv).
    destruct (Nat.eq_dec a b) as [-> | Hne].
    + rewrite Hu in Hv. inversion Hv. apply Qle_refl.
    + apply sorted_app_l in Hsorted.
      apply (StronglySorted_nth Hsorted) with (a := a) (b := b); auto. lia.
  - intros i i' Hi Hi' Hnot. rewrite Hrow in Hi, Hnot.
    apply in_map_iff in Hi. destruct Hi as [u [<- Hu]].
    assert (exists v, In v (skipn k l) /\ fst v = i') as [v [Hv <-]].
    { assert (In i' (map fst l)) as Hl.
      { apply (Permutation_in _ (Permutation_sym Hperm)), in_seq. lia. }
      rewrite <- (firstn_skipn k l), map_app in Hl.
      apply in_app_or in Hl. destruct Hl as [Hl | Hl]; [contradiction |].
      apply in_map_iff in Hl. destruct Hl as [v [Hv1 Hv2]]. now exists v. }
    assert (Hvl : In v l)
      by (rewrite <- (firstn_skipn k l); apply in_or_app; now right).
    rewrite <- (by_distance_key tree q u) by (exact (Hin u Hu)).
    rewrite <- (by_distance_key tree q v) by (exact Hvl).
    exact (@sorted_app_le _ (fun ip => KDTree.dist2 q (snd ip)) _ _ Hsorted u v Hu Hv).
Qed.

Lemma squeeze_singletons (A : Type) (rows : list (list A)) :
  Forall (fun r => length r = 1) rows ->
  map (fun idx => [idx]) (KDTree.squeeze rows) = rows.
Proof.
  unfold KDTree.squeeze.
  induction 1 as [| r rows Hr _ IH]; simpl; [reflexivity |].
  destruct r as [| a [| b r]]; try discriminate. simpl. now rewrite IH.
Qed.

(** With an index, at least one query point and [k >= 1], the method
    returns the index rows of the library, one per query point. *)
Lemma fast_nearest_points_rows (self : FastPostGISLike) (tree : KDTree.t)
    (query_points : list point) (k : Z) :
  kdtree self = Some tree -> query_points <> [] -> (1 <= k)%Z ->
  fast_nearest_points self query_points k =
  Returns (map (fun q => snd (KDTree.query_row tree q (Z.to_nat k))) query_points).
Proof.
  intros Ht Hq Hk. unfold fast_nearest_points, KDTree.query. rewrite Ht.
  destruct query_points as [| q0 qs]; [congruence |].
  destruct (k <? 1)%Z eqn:E; [apply Z.ltb_lt in E; lia |].
  cbn [bind try_except].
  set (qs' := q0 :: qs).
  destruct (k =? 1)%Z eqn:E1; cbn [try_except]; f_equal.
  - apply Z.eqb_eq in E1. subst k.
    rewrite squeeze_singletons; [apply map_map |].
    rewrite Forall_forall. intros r Hr. rewrite map_map in Hr.
    apply in_map_iff in Hr. destruct Hr as [q [<- _]].
    apply (proj1 (query_row_length tree q (Z.to_nat 1))).
  - rewrite map_id. apply map_map.
Qed.

(** ** Bulk load *)

Lemma in_sao_paulo_finite (lat lon : pyfloat) :
  in_sao_paulo lat lon = true ->
  exists p, as_point lat lon = Some p /\ in_box p.
Proof.
  unfold in_sao_paulo. rewrite !andb_true_iff. intros [[[H1 H2] H3] H4].
  destruct lat as [a | | |]; simpl in H1, H2; try discriminate.
  destruct lon as [b | | |]; simpl in H3, H4; try discriminate.
  exists (a, b). split; [reflexivity |].
  unfold in_box; simpl. rewrite <- !Qle_bool_iff. auto.
Qed.

Lemma region_points_in_box (lats lons : list pyfloat) :
  Forall in_box (region_points lats lons).
Proof.
  revert lons. induction lats as [| lat lats IH]; intros [| lon lons]; simpl;
    try constructor.
  destruct (in_sao_paulo lat lon) eqn:E; [| apply IH].
  destruct (in_sao_paulo_finite _ _ E) as [p [-> Hp]].
  constructor; [exact Hp | apply IH].
Qed.

(** A load that returns [True] leaves the filtered points, all inside the
    box, and an index over exactly that sequence. *)
Lemma bulk_insert_points_success (self self' : FastPostGISLike) (csv : option dataframe) :
  bulk_insert_points self csv = (true, self') ->
  Forall in_box (points self') /\
  points self' <> [] /\
  kdtree self' = Some (KDTree.Build (points self')).
Proof.
  unfold bulk_insert_points. destruct csv as [df |]; [| discriminate].
  destruct (column_astype_float (map LATITUDE (dropna df))) as [lats | e];
    [| discriminate].
  destruct (column_astype_float (map LONGITUDE (dropna df))) as [lons | e];
    [| discriminate].
  cbn [bind].
  pose proof (region_points_in_box lats lons) as Hbox.
  destruct (region_points lats lons) as [| p pts] eqn:E; simpl; [discriminate |].
  intros H. inversion H; subst; simpl. repeat split; [exact Hbox | discriminate].
Qed.

(** Rows of a k-nearest answer when the index has at least [k] points. *)
Lemma nearest_rows_valid
    (self : FastPostGISLike) (tree : KDTree.t) (query_points : list point) (k : Z) :
  kdtree self = Some tree ->
  (1 <= k <= Z.of_nat (KDTree.n tree))%Z ->
  forall rows, fast_nearest_points self query_points k = Returns rows ->
  forall row, In row rows ->
    length row = Z.to_nat k /\ NoDup row /\ Forall (fun i => i < KDTree.n tree) row.
Proof.
  intros Ht [Hk1 Hkn] rows Hq row Hrow.
  destruct query_points as [| q0 qs].
  - unfold fast_nearest_points in Hq. rewrite Ht in Hq. simpl in Hq.
    inversion Hq; subst. contradiction.
  - assert (Hne : q0 :: qs <> []) by discriminate.
    rewrite (@fast_nearest_points_rows self tree (q0 :: qs) k Ht Hne Hk1) in Hq.
    remember (q0 :: qs) as qs' eqn:Eqs. clear Eqs Hne.
    assert (Hrows : rows =
              map (fun q => snd (KDTree.query_row tree q (Z.to_nat k))) qs')
      by congruence.
    subst rows. apply in_map_iff in Hrow.
    destruct Hrow as [q [<- _]].
    assert (Hk : Z.to_nat k <= KDTree.n tree) by lia.
    destruct (query_row_nearest tree q Hk) as [H1 [H2 [H3 _]]]. auto.
Qed.

(** ** The nearest reference point *)

Section FirstMin.
Variable A : Type.
Variable key : A -> Q.

Lemma first_min_In (l : list A) (a : A) : first_min key l = Some a -> In a l.
Proof.
  revert a. induction l as [| b l IH]; simpl; intros a H; [discriminate |].
  destruct (first_min key l) as [m |].
  - destruct (Qle_bool (key b) (key m)).
    + inversion H. now left.
    + right. now apply IH.
  - inversion H. now left.
Qed.

Lemma first_min_cons (a : A) (l : list A) : first_min key (a :: l) <> None.
Proof.
  simpl. destruct (first_min key l) as [m |]; [| discriminate].
  destruct (Qle_bool (key a) (key m)); [discriminate |].
  intros H. discriminate.
Qed.

Lemma hd_insert_by (a : A) (l : list A) :
  hd_error (KDTree.insert_by key a l) =
  match hd_error l with
  | Some b => if Qle_bool (key a) (key b) then Some a else Some b
  | None => Some a
  end.
Proof.
  destruct l as [| b l]; simpl; [reflexivity |].
  now destruct (Qle_bool (key a) (key b)).
Qed.

(** The head of the sorted list is the first minimum. *)
Lemma hd_sort_by (l : list A) :
  hd_error (KDTree.sort_by key l) = first_min key l.
Proof.
  induction l as [| a l IH]; simpl; [reflexivity |].
  now rewrite hd_insert_by, IH.
Qed.

Lemma Qle_bool_false (u v : Q) : Qle_bool u v = false -> (v < u)%Q.
Proof.
  intros H. destruct (Qlt_le_dec v u) as [Hlt | Hle]; [exact Hlt |].
  apply Qle_bool_iff in Hle. congruence.
Qed.

Lemma first_min_le (l : list A) (m : A) :
  first_min key l = Some m -> forall a, In a l -> (key m <= key a)%Q.
Proof.
  revert m. induction l as [| b l IH]; simpl; intros m H a Ha; [contradiction |].
  destruct (first_min key l) as [m' |] eqn:E.
  - destruct (Qle_bool (key b) (key m')) eqn:Eb.
    + inversion H; subst m. apply Qle_bool_iff in Eb.
      destruct Ha as [<- | Ha]; [apply Qle_refl |].
      apply Qle_trans with (key m'); [exact Eb | now apply IH].
    + inversion H; subst m'. apply Qle_bool_false in Eb.
      destruct Ha as [<- | Ha]; [now apply Qlt_le_weak | now apply IH].
  - inversion H; subst m. destruct Ha as [<- | Ha]; [apply Qle_refl |].
    destruct l; [contradiction | exfalso; exact (first_min_cons _ _ E)].
Qed.

(** A left-to-right reading of [first_min]: the second element replaces
    the first only when it is strictly smaller. *)
Lemma first_min_swap (a b : A) (l : list A) :
  first_min key (a :: b :: l) =
  if Qle_bool (key a) (key b) then first_min key (a :: l)
  else first_min key (b :: l).
Proof.
  cbn [first_min].
  destruct (first_min key l) as [m |].
  - destruct (Qle_bool (key b) (key m)) eqn:Ebm;
      destruct (Qle_bool (key a) (key b)) eqn:Eab;
      destruct (Qle_bool (key a) (key m)) eqn:Eam; try reflexivity; exfalso.
    + apply Qle_bool_iff in Ebm, Eab. apply Qle_bool_false in Eam.
      apply (Qlt_irrefl (key a)).
      eapply Qle_lt_trans; [| exact Eam]. eapply Qle_trans; eauto.
    + apply Qle_bool_false in Ebm, Eab. apply Qle_bool_iff in Eam.
      apply (Qlt_irrefl (key a)).
      eapply Qle_lt_trans; [exact Eam |]. eapply Qlt_trans; eauto.
  - destruct (Qle_bool (key a) (key b)); reflexivity.
Qed.
End FirstMin.

Lemma nearest_nonempty (node_coords : list point) (cp : point) :
  node_coords <> [] ->
  exists j p, nearest node_coords cp = Some (j, p) /\
              nth_error node_coords j = Some p.
Proof.
  intros Hne. unfold nearest.
  destruct (first_min (fun ip => KDTree.dist2 cp (snd ip)) (enumerate node_coords))
    as [[j p] |] eqn:E.
  - exists j, p. split; [reflexivity |].
    apply In_enumerate. eapply first_min_In, E.
  - destruct node_coords as [| c cs]; [congruence |].
    exfalso. unfold enumerate in E. cbn [length seq combine] in E.
    exact (first_min_cons _ _ _ E).
Qed.

(** No reference point is closer to the subject than the chosen one. *)
Lemma nearest_is_minimal (node_coords : list point) (cp : point) (j : nat) (p : point) :
  nearest node_coords cp = Some (j, p) ->
  forall j' p', nth_error node_coords j' = Some p' ->
    (KDTree.dist2 cp p <= KDTree.dist2 cp p')%Q.
Proof.
  intros E j' p' Hp'. apply In_enumerate in Hp'.
  exact (first_min_le (fun ip => KDTree.dist2 cp (snd ip)) _ E (j', p') Hp').
Qed.

Lemma near_idx_lt (node_coords : list point) (cp : point) :
  node_coords <> [] -> near_idx node_coords cp < length node_coords.
Proof.
  intros Hne. destruct (nearest_nonempty cp Hne) as [j [p [E Hn]]].
  unfold near_idx. rewrite E. apply nth_error_Some. congruence.
Qed.

(** With [k = 1] the library's row is the first minimum and its distance. *)
Lemma query_row_one (node_coords : list point) (cp : point) :
  node_coords <> [] ->
  KDTree.query_row (KDTree.Build node_coords) cp 1 =
  ([near_dist node_coords cp], [near_idx node_coords cp]).
Proof.
  intros Hne. destruct (nearest_nonempty cp Hne) as [j [p [E Hn]]].
  unfold near_dist, near_idx. rewrite E.
  unfold nearest in E. rewrite <- hd_sort_by in E.
  unfold KDTree.query_row, KDTree.by_distance. cbn [KDTree.data].
  destruct (KDTree.sort_by (fun ip => KDTree.dist2 cp (snd ip)) (enumerate node_coords))
    as [| ip l]; [discriminate |].
  simpl in E. inversion E; subst ip. reflexivity.
Qed.

(** [np.argmin] of a row of the distance matrix picks the same point. *)
Lemma argmin_from_first_min (a : point) (pts : list point) :
  forall bi bp i j p,
    first_min (fun ip => KDTree.dist2 a (snd ip))
              ((bi, bp) :: combine (seq i (length pts)) pts) = Some (j, p) ->
    argmin_from bi (Sqrt (KDTree.dist2 a bp)) i
                (map (fun b => Sqrt (KDTree.dist2 a b)) pts) = j.
Proof.
  induction pts as [| d pts IH]; intros bi bp i j p H.
  - simpl in H. inversion H. reflexivity.
  - cbn [length seq combine] in H. rewrite first_min_swap in H.
    cbn [map argmin_from dist_ltb snd] in *.
    destruct (Qle_bool (KDTree.dist2 a bp) (KDTree.dist2 a d)); cbn [negb].
    + eapply IH, H.
    + eapply IH, H.
Qed.

Lemma argmin_row (node_coords : list point) (cp : point) :
  node_coords <> [] ->
  argmin (map (fun b => Sqrt (KDTree.dist2 cp b)) node_coords)
    = Returns (near_idx node_coords cp).
Proof.
  intros Hne. destruct (nearest_nonempty cp Hne) as [j [p [E Hn]]].
  unfold near_idx. rewrite E. unfold nearest in E.
  destruct node_coords as [| c cs]; [congruence |].
  unfold enumerate in E. cbn [length seq combine] in E.
  cbn [map argmin]. f_equal. eapply argmin_from_first_min, E.
Qed.

Lemma near_dist_nth (node_coords : list point) (cp : point) :
  node_coords <> [] ->
  nth_error (map (fun b => Sqrt (KDTree.dist2 cp b)) node_coords)
            (near_idx node_coords cp) = Some (near_dist node_coords cp).
Proof.
  intros Hne. destruct (nearest_nonempty cp Hne) as [j [p [E Hn]]].
  unfold near_idx, near_dist. rewrite E, nth_error_map, Hn. reflexivity.
Qed.

(** ** The assignment loops *)

Lemma dict_set_fresh (d : assignments) (key : nat) (v : assignment) :
  (forall k, In k (map fst d) -> k <> key) ->
  dict_set d key v = d ++ [(key, v)].
Proof.
  induction d as [| [k' v'] d IH]; simpl; intros H; [reflexivity |].
  destruct (k' =? key) eqn:E.
  - apply Nat.eqb_eq in E. exfalso. apply (H k'); auto.
  - rewrite IH; [reflexivity |]. intros k Hk. apply H. now right.
Qed.

Lemma extract_nodes_length (nodes : graph_nodes) :
  length (snd (extract_nodes nodes)) = length (fst (extract_nodes nodes)).
Proof.
  induction nodes as [| [node_id data] nodes IH]; simpl; [reflexivity |].
  destruct (extract_nodes nodes) as [coords ids]. simpl in IH.
  destruct (y data), (x data); simpl; auto.
Qed.

Lemma firstn_plus (A : Type) (l : list A) (i m : nat) :
  firstn (i + m) l = firstn i l ++ firstn m (skipn i l).
Proof.
  revert l. induction i as [| i IH]; intros l; simpl; [reflexivity |].
  destruct l as [| a l]; simpl.
  - now rewrite firstn_nil.
  - now rewrite IH.
Qed.

Lemma skipn_cons_S (A : Type) (l r : list A) (a : A) (s : nat) :
  skipn s l = a :: r -> skipn (S s) l = r.
Proof.
  revert l. induction s as [| s IH]; intros l H.
  - simpl in H. now subst l.
  - destruct l as [| b l]; [discriminate |]. simpl in H.
    change (skipn (S (S s)) (b :: l)) with (skipn (S s) l). now apply IH.
Qed.

Lemma firstn_min_length (A : Type) (l : list A) (k : nat) :
  firstn (Nat.min k (length l)) l = firstn k l.
Proof.
  destruct (Nat.le_ge_cases k (length l)) as [H | H].
  - now rewrite Nat.min_l.
  - rewrite Nat.min_r by exact H. now rewrite firstn_all, firstn_all2.
Qed.

Lemma assigned_keys (node_coords : list point) (node_ids : list Z) (cps : list point) :
  map fst (assigned node_coords node_ids cps) = seq 0 (length cps).
Proof. unfold assigned. now rewrite map_fst_enumerate, length_map. Qed.

Lemma combine_seq_app (A : Type) (l1 l2 : list A) (s : nat) :
  combine (seq s (length (l1 ++ l2))) (l1 ++ l2) =
  combine (seq s (length l1)) l1 ++ combine (seq (s + length l1) (length l2)) l2.
Proof.
  revert s. induction l1 as [| a l1 IH]; intros s; simpl.
  - now rewrite Nat.add_0_r.
  - rewrite IH. now rewrite Nat.add_succ_r.
Qed.

Lemma assigned_app (node_coords : list point) (node_ids : list Z) (l1 l2 : list point) :
  assigned node_coords node_ids (l1 ++ l2) =
  assigned node_coords node_ids l1 ++
  combine (seq (length l1) (length l2)) (map (record_of node_coords node_ids) l2).
Proof.
  unfold assigned, enumerate. rewrite map_app, combine_seq_app.
  now rewrite !length_map.
Qed.

Lemma squeeze_rows (A B : Type) (f : A -> B) (l : list A) :
  KDTree.squeeze (map (fun a => [f a]) l) = map f l.
Proof.
  unfold KDTree.squeeze. induction l as [| a l IH]; simpl; [reflexivity |].
  now rewrite IH.
Qed.

(** [range(0, N, batch_size)] has one start per chunk, each below [N],
    and the chunks cover [0 .. N-1]. *)
Lemma chunk_count (N batch_size : nat) :
  1 <= batch_size ->
  let count := (N - 0 + batch_size - 1) / batch_size in
  (forall c, c < 0 + count -> c * batch_size < N) /\
  N <= (0 + count) * batch_size.
Proof.
  intros Hb count.
  pose proof (Nat.div_mod_eq (N - 0 + batch_size - 1) batch_size) as E.
  pose proof (Nat.mod_upper_bound (N - 0 + batch_size - 1) batch_size
                ltac:(lia)) as Hr.
  fold count in E.
  set (r := (N - 0 + batch_size - 1) mod batch_size) in *.
  split.
  - intros c Hc. nia.
  - nia.
Qed.

Section Assignment.
Variable node_coords : list point.
Variable node_ids : list Z.
Hypothesis coords_nonempty : node_coords <> [].
Hypothesis ids_length : length node_ids = length node_coords.

Let record := record_of node_coords node_ids.

Lemma getitem_near_idx (cp : point) :
  getitem node_ids (near_idx node_coords cp) =
  Returns (nth (near_idx node_coords cp) node_ids 0%Z).
Proof.
  unfold getitem.
  destruct (nth_error node_ids (near_idx node_coords cp)) as [v |] eqn:E.
  - now rewrite (nth_error_nth _ _ _ E).
  - apply nth_error_None in E.
    pose proof (near_idx_lt cp coords_nonempty). lia.
Qed.

(** The inner loop over one batch appends one record per point, keyed
    [i + j]. *)
Lemma batch_loop (i : nat) (batch : list point) :
  forall s acc,
    (forall k, In k (map fst acc) -> k < i + s) ->
    for_each
      (combine (seq s (length batch))
         (combine batch (combine (map (near_idx node_coords) batch)
                                 (map (near_dist node_coords) batch))))
      (fun assignments jt =>
         let '(j, (crime_point, (nearest_idx, distance))) := jt in
         let global_idx := i + j in
         node_id <- getitem node_ids nearest_idx ;;
         Returns (dict_set assignments global_idx
                    (mkAssignment crime_point node_id distance)))
      acc
    = Returns (acc ++ combine (seq (i + s) (length batch)) (map record batch)).
Proof.
  induction batch as [| cp batch IH]; intros s acc Hacc.
  - simpl. now rewrite app_nil_r.
  - cbn [length seq map combine for_each].
    rewrite getitem_near_idx. cbn [bind].
    rewrite dict_set_fresh by (intros k Hk; apply Hacc in Hk; lia).
    rewrite IH.
    + rewrite <- app_assoc. cbn [app]. now rewrite Nat.add_succ_r.
    + intros k Hk. rewrite map_app in Hk. apply in_app_or in Hk.
      destruct Hk as [Hk | [<- | []]]; [apply Hacc in Hk |]; simpl; lia.
Qed.

Variable crime_points : list point.
Variable batch_size : nat.
Hypothesis batch_size_pos : 1 <= batch_size.

(** One turn of the outer loop: the first [i] records become the first
    [i + batch_size]. *)
Lemma chunk_step (i : nat) :
  i < length crime_points ->
  (let assignments := assigned node_coords node_ids (firstn i crime_points) in
   let batch_end := Nat.min (i + batch_size) (length crime_points) in
   let batch_crime := slice crime_points i batch_end in
   res <- KDTree.query (KDTree.Build node_coords) batch_crime 1 ;;
   let distances := KDTree.squeeze (fst res) in
   let nearest_indices := KDTree.squeeze (snd res) in
   for_each (enumerate (combine batch_crime (combine nearest_indices distances)))
     (fun assignments jt =>
        let '(j, (crime_point, (nearest_idx, distance))) := jt in
        let global_idx := i + j in
        node_id <- getitem node_ids nearest_idx ;;
        Returns (dict_set assignments global_idx
                   (mkAssignment crime_point node_id distance)))
     assignments)
  = Returns (assigned node_coords node_ids (firstn (i + batch_size) crime_points)).
Proof.
  intros Hi. cbv zeta.
  set (batch := slice crime_points i (Nat.min (i + batch_size) (length crime_points))).
  assert (Hsplit : firstn (i + batch_size) crime_points = firstn i crime_points ++ batch).
  { rewrite firstn_plus. f_equal. unfold batch, slice.
    rewrite <- (firstn_min_length (skipn i crime_points) batch_size).
    f_equal. rewrite length_skipn. lia. }
  assert (Hlen : length batch <> 0).
  { unfold batch, slice. rewrite length_firstn, length_skipn. lia. }
  unfold KDTree.query. destruct batch as [| b0 batch'] eqn:Eb; [now simpl in Hlen |].
  rewrite <- Eb in *. clear Hlen.
  change (1 <? 1)%Z with false. change (Z.to_nat 1) with 1. cbn [bind fst snd].
  rewrite (map_ext _ (fun cp => ([near_dist node_coords cp], [near_idx node_coords cp])))
    by (intros cp; now apply query_row_one).
  rewrite !map_map. cbn [fst snd].
  rewrite (squeeze_rows (near_dist node_coords)), (squeeze_rows (near_idx node_coords)).
  unfold enumerate.
  rewrite !length_combine, !length_map, !Nat.min_id.
  rewrite batch_loop.
  - rewrite Hsplit, assigned_app. rewrite Nat.add_0_r.
    rewrite length_firstn. now rewrite Nat.min_l by lia.
  - intros k Hk. rewrite assigned_keys in Hk. apply in_seq in Hk.
    rewrite length_firstn in Hk. lia.
Qed.

Lemma chunk_loop (m : nat) :
  forall c0,
    (forall c, c < c0 + m -> c * batch_size < length crime_points) ->
    for_each (map (fun c => 0 + c * batch_size) (seq c0 m))
      (fun assignments i =>
         let batch_end := Nat.min (i + batch_size) (length crime_points) in
         let batch_crime := slice crime_points i batch_end in
         res <- KDTree.query (KDTree.Build node_coords) batch_crime 1 ;;
         let distances := KDTree.squeeze (fst res) in
         let nearest_indices := KDTree.squeeze (snd res) in
         for_each (enumerate (combine batch_crime (combine nearest_indices distances)))
           (fun assignments jt =>
              let '(j, (crime_point, (nearest_idx, distance))) := jt in
              let global_idx := i + j in
              node_id <- getitem node_ids nearest_idx ;;
              Returns (dict_set assignments global_idx
                         (mkAssignment crime_point node_id distance)))
           assignments)
      (assigned node_coords node_ids (firstn (c0 * batch_size) crime_points))
    = Returns (assigned node_coords node_ids
                 (firstn ((c0 + m) * batch_size) crime_points)).
Proof.
  induction m as [| m IH]; intros c0 Hc.
  - simpl. now rewrite Nat.add_0_r.
  - cbn [seq map for_each]. cbn [Nat.add].
    pose proof (chunk_step (Hc c0 ltac:(lia))) as Hstep. cbv zeta in Hstep.
    rewrite Hstep. cbn [bind].
    replace (c0 * batch_size + batch_size) with (S c0 * batch_size) by lia.
    rewrite IH.
    + now replace (S c0 + m) with (c0 + S m) by lia.
    + intros c Hlt. apply Hc. lia.
Qed.

End Assignment.

Section Matrix.
Variable node_coords : list point.
Variable node_ids : list Z.
Hypothesis coords_nonempty : node_coords <> [].
Hypothesis ids_length : length node_ids = length node_coords.
Variable crime_points : list point.

Let record := record_of node_coords node_ids.

(** The matrix version: what the last loop of [create_voronoi_assignment]
    builds. *)
Lemma matrix_loop (rest : list point) :
  forall s acc,
    skipn s crime_points = rest ->
    (forall k, In k (map fst acc) -> k < s) ->
    for_each
      (combine (seq s (length rest))
         (combine rest (map (fun cp => nth (near_idx node_coords cp) node_ids 0%Z) rest)))
      (fun assignments it =>
         let '(i, (crime_point, nearest_node_id)) := it in
         row_i <- getitem
                    (map (fun a => map (fun b => Sqrt (KDTree.dist2 a b)) node_coords)
                         crime_points) i ;;
         idx_i <- getitem (map (near_idx node_coords) crime_points) i ;;
         d <- getitem row_i idx_i ;;
         Returns (dict_set assignments i
                    (mkAssignment crime_point nearest_node_id d)))
      acc
    = Returns (acc ++ combine (seq s (length rest)) (map record rest)).
Proof.
  induction rest as [| cp rest IH]; intros s acc Hs Hacc.
  - simpl. now rewrite app_nil_r.
  - assert (Hcp : nth_error crime_points s = Some cp).
    { rewrite <- (firstn_skipn s crime_points), Hs.
      assert (s <= length crime_points).
      { destruct (Nat.le_gt_cases s (length crime_points)); [assumption |].
        rewrite skipn_all2 in Hs by lia. discriminate. }
      rewrite nth_error_app2; rewrite length_firstn, Nat.min_l by lia; [| lia].
      now rewrite Nat.sub_diag. }
    cbn [length seq map combine for_each].
    unfold getitem at 1. rewrite nth_error_map, Hcp. cbn [option_map bind].
    unfold getitem at 1. rewrite nth_error_map, Hcp. cbn [option_map bind].
    unfold getitem at 1. rewrite (near_dist_nth cp coords_nonempty). cbn [bind].
    rewrite dict_set_fresh by (intros k Hk; apply Hacc in Hk; lia).
    rewrite IH.
    + now rewrite <- app_assoc.
    + eapply skipn_cons_S, Hs.
    + intros k Hk. rewrite map_app in Hk. apply in_app_or in Hk.
      destruct Hk as [Hk | [<- | []]]; [apply Hacc in Hk |]; simpl; lia.
Qed.
End Matrix.

Lemma map_M_map (A B C : Type) (f : B -> outcome C) (g : A -> B) (h : A -> C)
    (l : list A) :
  (forall a, f (g a) = Returns (h a)) ->
  map_M f (map g l) = Returns (map h l).
Proof.
  intros H. induction l as [| a l IH]; simpl; [reflexivity |].
  now rewrite H, IH.
Qed.

(** The chunked assignment returns the records of all subject points, in
    subject order, whatever the chunk size. *)
Lemma optimized_assignment_closed_form
    (batch_size : nat) (analyzer_points : list point) (nodes : graph_nodes) :
  1 <= batch_size ->
  fst (extract_nodes nodes) <> [] ->
  create_optimized_voronoi_assignment batch_size analyzer_points nodes =
  Returns (assigned (fst (extract_nodes nodes)) (snd (extract_nodes nodes))
                    analyzer_points).
Proof.
  intros Hb Hne. unfold create_optimized_voronoi_assignment.
  pose proof (extract_nodes_length nodes) as Hlen.
  destruct (extract_nodes nodes) as [node_coords node_ids]. cbn [fst snd] in *.
  unfold KDTree.cKDTree. destruct node_coords as [| c0 cs] eqn:Ec; [congruence |].
  rewrite <- Ec in *. cbn [bind].
  unfold range3. destruct batch_size as [| b] eqn:Eb; [lia |].
  rewrite <- Eb in *. cbn [bind].
  destruct (chunk_count (length analyzer_points) Hb) as [Hlt Hge].
  pose proof (@chunk_loop node_coords node_ids Hne Hlen analyzer_points batch_size Hb
                ((length analyzer_points - 0 + batch_size - 1) / batch_size) 0) as H.
  specialize (H Hlt).
  rewrite (firstn_all2 analyzer_points Hge) in H.
  exact H.
Qed.

(** The matrix version returns [None] when the Voronoi construction
    raises, and otherwise the records of all subject points, each with
    the first nearest reference point. *)
Lemma matrix_assignment_closed_form
    (Voronoi : list point -> outcome unit)
    (analyzer_points : list point) (nodes : graph_nodes) :
  analyzer_points <> [] ->
  fst (extract_nodes nodes) <> [] ->
  create_voronoi_assignment Voronoi analyzer_points nodes =
  match Voronoi (fst (extract_nodes nodes)) with
  | Returns _ =>
      Returns (Some (assigned (fst (extract_nodes nodes)) (snd (extract_nodes nodes))
                              analyzer_points))
  | Raises _ => Returns None
  end.
Proof.
  intros Hp Hne. unfold create_voronoi_assignment.
  pose proof (extract_nodes_length nodes) as Hlen.
  destruct (extract_nodes nodes) as [node_coords node_ids]. cbn [fst snd] in *.
  destruct (Voronoi node_coords) as [vor | e]; [| reflexivity].
  unfold cdist.
  destruct analyzer_points as [| p0 ps] eqn:Ep; [congruence |].
  destruct node_coords as [| c0 cs] eqn:Ec; [congruence |].
  rewrite <- Ep, <- Ec in *. cbn [bind].
  rewrite (map_M_map argmin _ (near_idx node_coords))
    by (intros a; now apply argmin_row).
  cbn [bind].
  rewrite (map_M_map (getitem node_ids) _
             (fun cp => nth (near_idx node_coords cp) node_ids 0%Z))
    by (intros a; now apply getitem_near_idx).
  cbn [bind]. unfold enumerate.
  rewrite length_combine, length_map, Nat.min_id.
  rewrite (@matrix_loop node_coords node_ids Hne Hlen analyzer_points analyzer_points 0 []);
    [| reflexivity | intros k []].
  cbn [bind app]. unfold assigned, enumerate. now rewrite length_map.
Qed.

(** ** The chunk loop under any order among equidistant points *)

Lemma by_distance_nearest_first : KDTree.nearest_first KDTree.by_distance.
Proof.
  intros tree x. split; [apply by_distance_perm |].
  exact (sort_by_sorted (fun ip => KDTree.dist2 x (snd ip)) (enumerate (KDTree.data tree))).
Qed.

Lemma higher_index_first_nearest_first : KDTree.nearest_first KDTree.higher_index_first.
Proof.
  intros tree x. unfold KDTree.higher_index_first. split.
  - etransitivity; [apply sort_by_perm | symmetry; apply Permutation_rev].
  - exact (sort_by_sorted (fun ip => KDTree.dist2 x (snd ip))
                          (rev (enumerate (KDTree.data tree)))).
Qed.

(** [KDTree.query] and the chunked assignment are the instances of their
    general forms for [KDTree.by_distance]. *)
Lemma query_by_by_distance (tree : KDTree.t) (xs : list point) (k : Z) :
  KDTree.query_by KDTree.by_distance tree xs k = KDTree.query tree xs k.
Proof. reflexivity. Qed.

Lemma create_optimized_voronoi_assignment_by_by_distance
    (batch_size : nat) (analyzer_points : list point) (nodes : graph_nodes) :
  create_optimized_voronoi_assignment_by KDTree.by_distance batch_size analyzer_points nodes
  = create_optimized_voronoi_assignment batch_size analyzer_points nodes.
Proof. reflexivity. Qed.

(** With [k = 1] a row of the library's answer is the head of its list. *)
Lemma query_row_by_one (order : KDTree.t -> point -> list (nat * point))
    (node_coords : list point) (cp : point) :
  KDTree.query_row_by order (KDTree.Build node_coords) cp 1 =
  ([dist_by order node_coords cp], [idx_by order node_coords cp]).
Proof.
  unfold KDTree.query_row_by, dist_by, idx_by, first_by.
  destruct (order (KDTree.Build node_coords) cp) as [| [j p] l]; reflexivity.
Qed.

(** The head of a nearest-first list is an indexed point that no other
    indexed point beats. *)
Lemma nearest_first_head (order : KDTree.t -> point -> list (nat * point))
    (node_coords : list point) (cp : point) :
  KDTree.nearest_first order ->
  node_coords <> [] ->
  exists j p,
    first_by order node_coords cp = Some (j, p) /\
    nth_error node_coords j = Some p /\
    forall j' p', nth_error node_coords j' = Some p' ->
      (KDTree.dist2 cp p <= KDTree.dist2 cp p')%Q.
Proof.
  intros Hord Hne. unfold first_by.
  destruct (Hord (KDTree.Build node_coords) cp) as [Hperm Hsorted].
  cbn [KDTree.data] in Hperm.
  destruct (order (KDTree.Build node_coords) cp) as [| [j p] l].
  - exfalso. apply Permutation_nil in Hperm.
    destruct node_coords as [| c cs]; [congruence | discriminate].
  - exists j, p. split; [reflexivity |]. split.
    + apply In_enumerate. apply (Permutation_in _ Hperm). now left.
    + intros j' p' H'. apply In_enumerate in H'.
      apply (Permutation_in _ (Permutation_sym Hperm)) in H'.
      destruct H' as [E' | Hin].
      * inversion E'; subst. apply Qle_refl.
      * inversion Hsorted as [| a l' Hs Hall]; subst.
        rewrite Forall_forall in Hall. exact (Hall (j', p') Hin).
Qed.

Lemma dist_to_nth_error (node_coords : list point) (cp : point) (j : nat) (p : point) :
  nth_error node_coords j = Some p ->
  dist_to (KDTree.Build node_coords) cp j = KDTree.dist2 cp p.
Proof.
  intros H. unfold dist_to. cbn [KDTree.data]. now rewrite (nth_error_nth _ _ _ H).
Qed.

Lemma is_nearest_of_minimal (node_coords : list point) (cp : point) (j : nat) (p : point) :
  nth_error node_coords j = Some p ->
  (forall j' p', nth_error node_coords j' = Some p' ->
     (KDTree.dist2 cp p <= KDTree.dist2 cp p')%Q) ->
  is_nearest node_coords cp j.
Proof.
  intros Hj Hmin. split.
  - apply nth_error_Some. congruence.
  - intros j' Hj'. destruct (nth_error node_coords j') as [p' |] eqn:E.
    + rewrite (@dist_to_nth_error node_coords cp j p Hj),
              (@dist_to_nth_error node_coords cp j' p' E).
      now apply (Hmin j').
    + apply nth_error_None in E. lia.
Qed.

(** Whatever the order among equidistant points, the library's answer is a
    nearest reference point, reported with its distance. *)
Lemma idx_by_is_nearest (order : KDTree.t -> point -> list (nat * point))
    (node_coords : list point) (cp : point) :
  KDTree.nearest_first order ->
  node_coords <> [] ->
  is_nearest node_coords cp (idx_by order node_coords cp) /\
  dist_by order node_coords cp =
  Sqrt (dist_to (KDTree.Build node_coords) cp (idx_by order node_coords cp)).
Proof.
  intros Hord Hne.
  destruct (@nearest_first_head order node_coords cp Hord Hne) as [j [p [E [Hj Hmin]]]].
  unfold idx_by, dist_by. rewrite E. split.
  - exact (@is_nearest_of_minimal node_coords cp j p Hj Hmin).
  - now rewrite (@dist_to_nth_error node_coords cp j p Hj).
Qed.

(** [first_min] takes the first of the minima: what stands before it is
    strictly larger. *)
Lemma first_min_split (A : Type) (key : A -> Q) (l : list A) (m : A) :
  first_min key l = Some m ->
  exists l1 l2, l = l1 ++ m :: l2 /\ forall a, In a l1 -> (key m < key a)%Q.
Proof.
  revert m. induction l as [| b l IH]; simpl; intros m H; [discriminate |].
  destruct (first_min key l) as [m' |] eqn:E.
  - destruct (Qle_bool (key b) (key m')) eqn:Eb.
    + inversion H; subst m. exists [], l. split; [reflexivity | intros a []].
    + inversion H; subst m'. apply Qle_bool_false in Eb.
      destruct (IH m eq_refl) as [l1 [l2 [El Hl]]].
      exists (b :: l1), l2. split; [simpl; now rewrite El |].
      intros a [<- | Ha]; [exact Eb | now apply Hl].
  - inversion H; subst m. exists [], l. split; [reflexivity | intros a []].
Qed.

(** [np.argmin] takes the nearest reference point of lowest index. *)
Lemma near_idx_is_lowest_nearest (node_coords : list point) (cp : point) :
  node_coords <> [] ->
  is_nearest node_coords cp (near_idx node_coords cp) /\
  (forall j', is_nearest node_coords cp j' -> near_idx node_coords cp <= j') /\
  near_dist node_coords cp =
  Sqrt (dist_to (KDTree.Build node_coords) cp (near_idx node_coords cp)).
Proof.
  intros Hne. destruct (nearest_nonempty cp Hne) as [m [p [E Hm]]].
  pose proof (@nearest_is_minimal node_coords cp m p E) as Hmin.
  unfold near_idx, near_dist. rewrite E. split; [| split].
  - exact (@is_nearest_of_minimal node_coords cp m p Hm Hmin).
  - intros j' [Hj' Hle'].
    destruct (Nat.le_gt_cases m j') as [Hok | Hlt]; [exact Hok | exfalso].
    unfold nearest in E.
    destruct (@first_min_split _ _ _ _ E) as [l1 [l2 [El Hl]]].
    assert (Hlen : length l1 = m).
    { pose proof (nth_error_enumerate node_coords (length l1)) as Hn.
      rewrite El, nth_error_app2, Nat.sub_diag in Hn by lia. simpl in Hn.
      destruct (nth_error node_coords (length l1)); simpl in Hn; [| discriminate].
      now inversion Hn. }
    destruct (nth_error node_coords j') as [p' |] eqn:Ej';
      [| apply nth_error_None in Ej'; lia].
    assert (Hin : In (j', p') l1).
    { pose proof (nth_error_enumerate node_coords j') as Hn.
      rewrite Ej', El, nth_error_app1 in Hn by lia. simpl in Hn.
      eapply nth_error_In, Hn. }
    apply Hl in Hin. cbn [snd] in Hin.
    assert (Hm' : m < length node_coords) by (apply nth_error_Some; congruence).
    specialize (Hle' m Hm').
    rewrite (@dist_to_nth_error node_coords cp j' p' Ej'),
            (@dist_to_nth_error node_coords cp m p Hm) in Hle'.
    exact (Qlt_irrefl _ (Qlt_le_trans _ _ _ Hin Hle')).
  - now rewrite (@dist_to_nth_error node_coords cp m p Hm).
Qed.

Lemma assigned_by_keys (order : KDTree.t -> point -> list (nat * point))
    (node_coords : list point) (node_ids : list Z) (cps : list point) :
  map fst (assigned_by order node_coords node_ids cps) = seq 0 (length cps).
Proof. unfold assigned_by. now rewrite map_fst_enumerate, length_map. Qed.

Lemma assigned_by_app (order : KDTree.t -> point -> list (nat * point))
    (node_coords : list point) (node_ids : list Z) (l1 l2 : list point) :
  assigned_by order node_coords node_ids (l1 ++ l2) =
  assigned_by order node_coords node_ids l1 ++
  combine (seq (length l1) (length l2)) (map (record_by order node_coords node_ids) l2).
Proof.
  unfold assigned_by, enumerate. rewrite map_app, combine_seq_app.
  now rewrite !length_map.
Qed.

Section AnyOrder.
Variable order : KDTree.t -> point -> list (nat * point).
Variable node_coords : list point.
Variable node_ids : list Z.
Hypothesis idx_valid : forall cp, idx_by order node_coords cp < length node_ids.

Lemma getitem_idx_by (cp : point) :
  getitem node_ids (idx_by order node_coords cp) =
  Returns (nth (idx_by order node_coords cp) node_ids 0%Z).
Proof.
  unfold getitem.
  destruct (nth_error node_ids (idx_by order node_coords cp)) as [v |] eqn:E.
  - now rewrite (nth_error_nth _ _ _ E).
  - apply nth_error_None in E. pose proof (idx_valid cp). lia.
Qed.

(** The inner loop over one batch: one record per point, keyed [i + j]. *)
Lemma batch_loop_by (i : nat) (batch : list point) :
  forall s acc,
    (forall k, In k (map fst acc) -> k < i + s) ->
    for_each
      (combine (seq s (length batch))
         (combine batch (combine (map (idx_by order node_coords) batch)
                                 (map (dist_by order node_coords) batch))))
      (fun assignments jt =>
         let '(j, (crime_point, (nearest_idx, distance))) := jt in
         let global_idx := i + j in
         node_id <- getitem node_ids nearest_idx ;;
         Returns (dict_set assignments global_idx
                    (mkAssignment crime_point node_id distance)))
      acc
    = Returns (acc ++ combine (seq (i + s) (length batch))
                              (map (record_by order node_coords node_ids) batch)).
Proof.
  induction batch as [| cp batch IH]; intros s acc Hacc.
  - simpl. now rewrite app_nil_r.
  - cbn [length seq map combine for_each].
    rewrite getitem_idx_by. cbn [bind].
    rewrite dict_set_fresh by (intros k Hk; apply Hacc in Hk; lia).
    rewrite IH.
    + rewrite <- app_assoc. cbn [app]. now rewrite Nat.add_succ_r.
    + intros k Hk. rewrite map_app in Hk. apply in_app_or in Hk.
      destruct Hk as [Hk | [<- | []]]; [apply Hacc in Hk |]; simpl; lia.
Qed.

Variable crime_points : list point.
Variable batch_size : nat.
Hypothesis batch_size_pos : 1 <= batch_size.

(** One turn of the outer loop. *)
Lemma chunk_step_by (i : nat) :
  i < length crime_points ->
  (let assignments := assigned_by order node_coords node_ids (firstn i crime_points) in
   let batch_end := Nat.min (i + batch_size) (length crime_points) in
   let batch_crime := slice crime_points i batch_end in
   res <- KDTree.query_by order (KDTree.Build node_coords) batch_crime 1 ;;
   let distances := KDTree.squeeze (fst res) in
   let nearest_indices := KDTree.squeeze (snd res) in
   for_each (enumerate (combine batch_crime (combine nearest_indices distances)))
     (fun assignments jt =>
        let '(j, (crime_point, (nearest_idx, distance))) := jt in
        let global_idx := i + j in
        node_id <- getitem node_ids nearest_idx ;;
        Returns (dict_set assignments global_idx
                   (mkAssignment crime_point node_id distance)))
     assignments)
  = Returns (assigned_by order node_coords node_ids
               (firstn (i + batch_size) crime_points)).
Proof.
  intros Hi. cbv zeta.
  set (batch := slice crime_points i (Nat.min (i + batch_size) (length crime_points))).
  assert (Hsplit : firstn (i + batch_size) crime_points = firstn i crime_points ++ batch).
  { rewrite firstn_plus. f_equal. unfold batch, slice.
    rewrite <- (firstn_min_length (skipn i crime_points) batch_size).
    f_equal. rewrite length_skipn. lia. }
  assert (Hlen : length batch <> 0).
  { unfold batch, slice. rewrite length_firstn, length_skipn. lia. }
  unfold KDTree.query_by. destruct batch as [| b0 batch'] eqn:Eb; [now simpl in Hlen |].
  rewrite <- Eb in *. clear Hlen.
  change (1 <? 1)%Z with false. change (Z.to_nat 1) with 1. cbn [bind fst snd].
  rewrite (map_ext _ (fun cp => ([dist_by order node_coords cp],
                                 [idx_by order node_coords cp])))
    by (intros cp; apply query_row_by_one).
  rewrite !map_map. cbn [fst snd].
  rewrite (squeeze_rows (dist_by order node_coords)),
          (squeeze_rows (idx_by order node_coords)).
  unfold enumerate.
  rewrite !length_combine, !length_map, !Nat.min_id.
  rewrite batch_loop_by.
  - rewrite Hsplit, assigned_by_app. rewrite Nat.add_0_r.
    rewrite length_firstn. now rewrite Nat.min_l by lia.
  - intros k Hk. rewrite assigned_by_keys in Hk. apply in_seq in Hk.
    rewrite length_firstn in Hk. lia.
Qed.

Lemma chunk_loop_by (m : nat) :
  forall c0,
    (forall c, c < c0 + m -> c * batch_size < length crime_points) ->
    for_each (map (fun c => 0 + c * batch_size) (seq c0 m))
      (fun assignments i =>
         let batch_end := Nat.min (i + batch_size) (length crime_points) in
         let batch_crime := slice crime_points i batch_end in
         res <- KDTree.query_by order (KDTree.Build node_coords) batch_crime 1 ;;
         let distances := KDTree.squeeze (fst res) in
         let nearest_indices := KDTree.squeeze (snd res) in
         for_each (enumerate (combine batch_crime (combine nearest_indices distances)))
           (fun assignments jt =>
              let '(j, (crime_point, (nearest_idx, distance))) := jt in
              let global_idx := i + j in
              node_id <- getitem node_ids nearest_idx ;;
              Returns (dict_set assignments global_idx
                         (mkAssignment crime_point node_id distance)))
           assignments)
      (assigned_by order node_coords node_ids (firstn (c0 * batch_size) crime_points))
    = Returns (assigned_by order node_coords node_ids
                 (firstn ((c0 + m) * batch_size) crime_points)).
Proof.
  induction m as [| m IH]; intros c0 Hc.
  - simpl. now rewrite Nat.add_0_r.
  - cbn [seq map for_each]. cbn [Nat.add].
    pose proof (chunk_step_by (Hc c0 ltac:(lia))) as Hstep. cbv zeta in Hstep.
    rewrite Hstep. cbn [bind].
    replace (c0 * batch_size + batch_size) with (S c0 * batch_size) by lia.
    rewrite IH.
    + now replace (S c0 + m) with (c0 + S m) by lia.
    + intros c Hlt. apply Hc. lia.
Qed.

End AnyOrder.

(** Whatever the order among equidistant points, the chunked assignment
    returns one record per subject point, in subject order, each with the
    library's answer for that point alone: the chunk size does not
    appear. *)
Lemma optimized_assignment_by_closed_form
    (order : KDTree.t -> point -> list (nat * point))
    (batch_size : nat) (analyzer_points : list point) (nodes : graph_nodes) :
  KDTree.nearest_first order ->
  1 <= batch_size ->
  fst (extract_nodes nodes) <> [] ->
  create_optimized_voronoi_assignment_by order batch_size analyzer_points nodes =
  Returns (assigned_by order (fst (extract_nodes nodes)) (snd (extract_nodes nodes))
                       analyzer_points).
Proof.
  intros Hord Hb Hne. unfold create_optimized_voronoi_assignment_by.
  pose proof (extract_nodes_length nodes) as Hlen.
  destruct (extract_nodes nodes) as [node_coords node_ids]. cbn [fst snd] in *.
  assert (Hidx : forall cp, idx_by order node_coords cp < length node_ids).
  { intros cp. rewrite Hlen.
    exact (proj1 (proj1 (@idx_by_is_nearest order node_coords cp Hord Hne))). }
  unfold KDTree.cKDTree. destruct node_coords as [| c0 cs] eqn:Ec; [congruence |].
  rewrite <- Ec in *. cbn [bind].
  unfold range3. destruct batch_size as [| b] eqn:Eb; [lia |].
  rewrite <- Eb in *. cbn [bind].
  destruct (chunk_count (length analyzer_points) Hb) as [Hlt Hge].
  pose proof (@chunk_loop_by order node_coords node_ids Hidx analyzer_points batch_size Hb
                ((length analyzer_points - 0 + batch_size - 1) / batch_size) 0) as H.
  specialize (H Hlt).
  rewrite (firstn_all2 analyzer_points Hge) in H.
  exact H.
Qed.

(** With no reference point the index constructor raises. *)
Lemma empty_reference_set_is_refused
    (batch_size : nat) (analyzer_points : list point) (nodes : graph_nodes) :
  fst (extract_nodes nodes) = [] ->
  create_optimized_voronoi_assignment batch_size analyzer_points nodes
    = Raises ValueError.
Proof.
  intros He. unfold create_optimized_voronoi_assignment.
  destruct (extract_nodes nodes) as [node_coords node_ids]. simpl in He.
  subst node_coords. reflexivity.
Qed.

(** With [k < 1] the library refuses and the method returns the empty
    list. *)
Lemma fast_nearest_points_at_most_zero
    (self : FastPostGISLike) (query_points : list point) (k : Z) :
  (k <= 0)%Z -> fast_nearest_points self query_points k = Returns [].
Proof.
  intros Hk. unfold fast_nearest_points, KDTree.query.
  destruct (kdtree self) as [tree |]; [| reflexivity].
  destruct query_points as [| q qs]; [reflexivity |].
  destruct (k <? 1)%Z eqn:E; [reflexivity |].
  apply Z.ltb_ge in E. lia.
Qed.

(** After a successful load a radius query returns identities of stored
    points only. *)
Lemma index_answers_stored_points
    (self self' : FastPostGISLike) (csv : option dataframe)
    (center : point) (radius_km : Q) (ids : list nat) (i : nat) :
  bulk_insert_points self csv = (true, self') ->
  fast_spatial_query self' center radius_km = Returns ids ->
  In i ids ->
  exists p, nth_error (points self') i = Some p /\ in_box p.
Proof.
  intros H Hq Hi. apply bulk_insert_points_success in H.
  destruct H as [Hbox [Hne Htree]].
  destruct center as [lat_center lon_center].
  unfold fast_spatial_query in Hq. rewrite Htree in Hq.
  destruct (lat_radius radius_km) as [lat_r |]; cbn [bind try_except] in Hq;
    [| inversion Hq; subst; contradiction].
  destruct (lon_radius lat_center radius_km) as [lon_r |];
    cbn [bind try_except] in Hq; [| inversion Hq; subst; contradiction].
  inversion Hq; subst ids. apply In_query_ball_point in Hi.
  destruct Hi as [p [Hp _]]. simpl in Hp. exists p. split; [exact Hp |].
  rewrite Forall_forall in Hbox. eapply Hbox, nth_error_In, Hp.
Qed.

(* ================================================================== *)
(** * The claims *)

(** ** k-nearest queries *)

(** C3, as stated, fails: with one indexed point and [k = 2] the method
    returns two identities, not [min(2, 1) = 1]; the second one is the
    library's filler [n = 1], which is the identity of no stored point. *)
Lemma fast_nearest_points_pads_beyond_size :
  let self := loaded csv_one in
  length (points self) = 1 /\
  fast_nearest_points self [(-2355 # 100, -4663 # 100)%Q] 2 = Returns [[0; 1]] /\
  length [0; 1] <> Nat.min 2 (length (points self)) /\
  nth_error (points self) 1 = None.
Proof.
  repeat split; try (vm_compute; reflexivity); vm_compute; discriminate.
Qed.

(** C3 (amended): over an index of [n] points and for [1 <= k <= n], the
    method returns one row per query point; a row holds exactly [k]
    identities (no distances), all valid and pairwise distinct, by
    non-decreasing distance to the query point, and no point left out is
    closer than a listed one. *)
Theorem fast_nearest_points_k_nearest
    (self : FastPostGISLike) (tree : KDTree.t) (query_points : list point) (k : Z) :
  kdtree self = Some tree ->
  (1 <= k <= Z.of_nat (KDTree.n tree))%Z ->
  exists rows,
    fast_nearest_points self query_points k = Returns rows /\
    length rows = length query_points /\
    forall j q row,
      nth_error query_points j = Some q -> nth_error rows j = Some row ->
      length row = Z.to_nat k /\
      NoDup row /\
      Forall (fun i => i < KDTree.n tree) row /\
      (forall a b ia ib, a <= b ->
         nth_error row a = Some ia -> nth_error row b = Some ib ->
         (dist_to tree q ia <= dist_to tree q ib)%Q) /\
      (forall i i', In i row -> i' < KDTree.n tree -> ~ In i' row ->
         (dist_to tree q i <= dist_to tree q i')%Q).
Proof.
  intros Ht [Hk1 Hkn].
  destruct query_points as [| q0 qs].
  - exists []. unfold fast_nearest_points. rewrite Ht. simpl.
    split; [reflexivity |]. split; [reflexivity |].
    intros [| j] q row Hq; discriminate.
  - assert (Hne : q0 :: qs <> []) by discriminate.
    rewrite (@fast_nearest_points_rows self tree (q0 :: qs) k Ht Hne Hk1).
    eexists. split; [reflexivity |].
    split; [apply length_map |].
    intros j q row Hq Hrow. rewrite nth_error_map, Hq in Hrow.
    simpl in Hrow. inversion Hrow; subst row.
    apply query_row_nearest. lia.
Qed.

Lemma fast_nearest_points_k_nearest_witness :
  exists rows,
    fast_nearest_points (loaded csv_mixed) [(-236 # 10, -465 # 10)%Q] 2 = Returns rows /\
    length rows = 1.
Proof.
  destruct (@fast_nearest_points_k_nearest (loaded csv_mixed)
              (KDTree.Build (points (loaded csv_mixed)))
              [(-236 # 10, -465 # 10)%Q] 2) as [rows [H1 [H2 _]]].
  - reflexivity.
  - vm_compute. split; discriminate.
  - exists rows. split; [exact H1 | exact H2].
Defined.

(** C7, as stated, fails: with [k = 0] (and with a negative [k]) nothing is
    raised; the library's error is caught and the method returns [[]]. *)
Lemma fast_nearest_points_k_zero_returns :
  fast_nearest_points (loaded csv_one) [(-2355 # 100, -4663 # 100)%Q] 0 = Returns [] /\
  fast_nearest_points (loaded csv_one) [(-2355 # 100, -4663 # 100)%Q] (-3) = Returns [] /\
  fast_nearest_points (loaded csv_one) [(-2355 # 100, -4663 # 100)%Q] 0
    <> Raises InvalidArgument.
Proof.
  repeat split; try (vm_compute; reflexivity). vm_compute. discriminate.
Qed.

(** C7 (amended): called with [k <= 0], the method raises nothing and
    returns the empty list, whatever the index and the query points. *)
Theorem fast_nearest_points_nonpositive_k
    (self : FastPostGISLike) (query_points : list point) (k : Z) :
  (k <= 0)%Z -> fast_nearest_points self query_points k = Returns [].
Proof.
  intros Hk. unfold fast_nearest_points, KDTree.query.
  destruct (kdtree self) as [tree |]; [| reflexivity].
  destruct query_points as [| q qs]; [reflexivity |].
  destruct (k <? 1)%Z eqn:E; [reflexivity |].
  apply Z.ltb_ge in E. lia.
Qed.

Lemma fast_nearest_points_nonpositive_k_witness :
  fast_nearest_points (loaded csv_mixed) [(-236 # 10, -465 # 10)%Q] (-1) = Returns [].
Proof.
  apply fast_nearest_points_nonpositive_k. lia.
Defined.

(** ** Empty index *)

(** The part of the empty-index claim that holds: an object that has no
    index answers every radius query and every k-nearest query with the
    empty list, without raising; and a load that stores no point into such
    an object (a fresh one, or one whose earlier loads all failed) leaves it
    without an index. *)
Lemma object_without_index_answers_empty
    (self : FastPostGISLike) (csv : option dataframe) :
  kdtree self = None ->
  points (snd (bulk_insert_points self csv)) = [] ->
  kdtree (snd (bulk_insert_points self csv)) = None /\
  forall (center : point) (radius_km : Q) (query_points : list point) (k : Z),
    fast_spatial_query (snd (bulk_insert_points self csv)) center radius_km = Returns [] /\
    fast_nearest_points (snd (bulk_insert_points self csv)) query_points k = Returns [].
Proof.
  intros Hnone Hempty.
  assert (H : kdtree (snd (bulk_insert_points self csv)) = None).
  { revert Hempty. unfold bulk_insert_points. destruct csv as [df |]; [| auto].
    destruct (column_astype_float (map LATITUDE (dropna df))) as [lats | e]; [| auto].
    destruct (column_astype_float (map LONGITUDE (dropna df))) as [lons | e]; [| auto].
    cbn [bind].
    destruct (region_points lats lons) as [| p pts]; simpl; [auto | discriminate]. }
  split; [exact H |].
  intros center radius_km query_points k.
  unfold fast_spatial_query, fast_nearest_points. rewrite H. split; reflexivity.
Qed.

(** C9 fails on the code.  The guard of both queries tests the index
    ([self.kdtree is None]), not the number of stored points, and the bulk
    load overwrites [self.points] before it rebuilds the index: when no
    record of the new CSV is accepted, [cKDTree] raises on the empty array,
    the load returns [False], and the object is left with zero points and
    the index of the previous load.  It then answers a radius query with
    the identities [0] and [1] and a 2-nearest query with [[1, 0]], none of
    which is the identity of a stored point. *)
Theorem emptied_object_answers_from_old_index :
  let self := loaded csv_mixed in
  let self' := snd (bulk_insert_points self (Some [mkRow (num 0) (num 0)])) in
  bulk_insert_points self (Some [mkRow (num 0) (num 0)]) = (false, self') /\
  points self' = [] /\
  fast_spatial_query self' (-236 # 10, -465 # 10)%Q 5 = Returns [0; 1] /\
  fast_nearest_points self' [(-236 # 10, -466 # 10)%Q] 2 = Returns [[1; 0]] /\
  (forall i, nth_error (points self') i = None).
Proof.
  cbv zeta. split; [vm_compute; reflexivity |].
  split; [vm_compute; reflexivity |].
  split; [vm_compute; reflexivity |].
  split; [vm_compute; reflexivity |].
  intros i. replace (points _) with (@nil point) by (vm_compute; reflexivity).
  now destruct i.
Qed.

(** ** Bulk load: the bounding box *)

(** C10, as stated, fails in its last part: after a successful load of one
    point, a k-nearest query with [k = 3] returns the identity [1], and no
    stored point has that identity. *)
Lemma loaded_index_returns_foreign_identity :
  bulk_insert_points init (Some csv_one) = (true, loaded csv_one) /\
  fast_nearest_points (loaded csv_one) [(-2355 # 100, -4663 # 100)%Q] 3
    = Returns [[0; 1; 1]] /\
  ~ (exists p, nth_error (points (loaded csv_one)) 1 = Some p /\ in_box p).
Proof.
  split; [vm_compute; reflexivity |]. split; [vm_compute; reflexivity |].
  intros [p [H _]]. vm_compute in H. discriminate.
Qed.

(** C10 (amended): after a load that returns [True], every stored point
    lies in the box [-24 <= lat <= -23], [-47 <= lon <= -46], the index is
    built over exactly the stored sequence, and every identity returned by
    a radius query, or by a k-nearest query with [1 <= k <= len(points)],
    is the identity of a stored point inside the box. *)
Theorem bulk_insert_points_box_invariant
    (self self' : FastPostGISLike) (csv : option dataframe) :
  bulk_insert_points self csv = (true, self') ->
  Forall in_box (points self') /\
  kdtree self' = Some (KDTree.Build (points self')) /\
  (forall center radius_km ids i,
      fast_spatial_query self' center radius_km = Returns ids -> In i ids ->
      exists p, nth_error (points self') i = Some p /\ in_box p) /\
  (forall query_points k rows row i,
      (1 <= k <= Z.of_nat (length (points self')))%Z ->
      fast_nearest_points self' query_points k = Returns rows ->
      In row rows -> In i row ->
      exists p, nth_error (points self') i = Some p /\ in_box p).
Proof.
  intros H. apply bulk_insert_points_success in H.
  destruct H as [Hbox [Hne Htree]].
  assert (Hid : forall i, i < length (points self') ->
                exists p, nth_error (points self') i = Some p /\ in_box p).
  { intros i Hi. destruct (nth_error (points self') i) as [p |] eqn:E.
    - exists p. split; [reflexivity |].
      rewrite Forall_forall in Hbox. eapply Hbox, nth_error_In, E.
    - apply nth_error_None in E. lia. }
  split; [exact Hbox |]. split; [exact Htree |]. split.
  - intros [lat_center lon_center] radius_km ids i Hq Hi.
    unfold fast_spatial_query in Hq. rewrite Htree in Hq.
    destruct (lat_radius radius_km) as [lat_r |]; cbn [bind try_except] in Hq;
      [| inversion Hq; subst; contradiction].
    destruct (lon_radius lat_center radius_km) as [lon_r |];
      cbn [bind try_except] in Hq; [| inversion Hq; subst; contradiction].
    inversion Hq; subst ids. apply In_query_ball_point in Hi.
    destruct Hi as [p [Hp _]]. simpl in Hp. apply Hid.
    apply nth_error_Some. congruence.
  - intros query_points k rows row i Hk Hq Hrow Hi.
    destruct (@nearest_rows_valid self' (KDTree.Build (points self'))
                query_points k Htree Hk rows Hq row Hrow) as [_ [_ Hlt]].
    rewrite Forall_forall in Hlt. apply Hid, (Hlt i Hi).
Qed.

Lemma bulk_insert_points_box_invariant_witness :
  Forall in_box (points (loaded csv_mixed)) /\
  kdtree (loaded csv_mixed) = Some (KDTree.Build (points (loaded csv_mixed))).
Proof.
  destruct (@bulk_insert_points_box_invariant init (loaded csv_mixed) (Some csv_mixed))
    as [H1 [H2 _]].
  - vm_compute. reflexivity.
  - split; [exact H1 | exact H2].
Defined.

(** ** Bulk load: what is returned *)

(** C8, as stated, fails: the loads of [csv_one] (nothing rejected) and of
    [csv_one_and_outlier] (one record rejected) return the same flag and
    leave the same state, so no count of rejected records is returned or
    kept. *)
Lemma bulk_insert_points_keeps_no_rejected_count :
  bulk_insert_points init (Some csv_one)
    = bulk_insert_points init (Some csv_one_and_outlier) /\
  fst (bulk_insert_points init (Some csv_one)) = true /\
  rejected_count csv_one = 0 /\
  rejected_count csv_one_and_outlier = 1.
Proof.
  repeat split; vm_compute; reflexivity.
Qed.

Lemma bulk_insert_columns (df : dataframe) :
  Forall parses df ->
  exists lats lons,
    column_astype_float (map LATITUDE (dropna df)) = Returns lats /\
    column_astype_float (map LONGITUDE (dropna df)) = Returns lons /\
    region_points lats lons = accepted df.
Proof.
  induction 1 as [| r df Hr _ IH].
  - exists [], []. repeat split.
  - destruct IH as [lats [lons [E1 [E2 E3]]]].
    assert (Hd : dropna (r :: df) =
                 if notna (LATITUDE r) && notna (LONGITUDE r)
                 then r :: dropna df else dropna df) by reflexivity.
    assert (Ha : accepted (r :: df) =
                 match row_point r with Some p => [p] | None => [] end ++ accepted df)
      by reflexivity.
    rewrite Hd, Ha. clear Hd Ha.
    destruct r as [clat clon]. unfold parses in Hr. unfold row_point.
    cbn [LATITUDE LONGITUDE] in *.
    destruct clat as [| [flat |]]; cbn [notna andb] in *.
    + exists lats, lons. now rewrite E1, E2, E3.
    + destruct clon as [| [flon |]]; cbn [notna] in *.
      * exists lats, lons. rewrite E1, E2, E3. destruct flat; auto.
      * exists (flat :: lats), (flon :: lons).
        cbn [map LATITUDE LONGITUDE column_astype_float astype_float bind].
        rewrite E1, E2. cbn [bind]. repeat split.
        cbn [region_points]. rewrite E3.
        destruct flat as [a | | |], flon as [b | | |]; try reflexivity;
          unfold in_sao_paulo, ge, le, as_point;
          repeat match goal with
                 | |- context [Qle_bool ?u ?v] => destruct (Qle_bool u v)
                 end; reflexivity.
      * exfalso. destruct Hr as [_ Hr]; [reflexivity |]. now apply Hr.
    + destruct clon as [| tlon]; cbn [notna] in *.
      * exists lats, lons. now rewrite E1, E2, E3.
      * exfalso. destruct Hr as [Hr _]; [reflexivity |]. now apply Hr.
Qed.

(** C8 (amended): the load returns one boolean and no counts.  When the
    CSV is read and every coordinate text of a complete record parses, the
    stored points are exactly the records inside the box, in input order
    (records with a missing, non-finite or out-of-box coordinate are dropped
    without aborting), and the flag is [True] exactly when at least one
    record was accepted. *)
Theorem bulk_insert_points_accepts_box_records
    (self : FastPostGISLike) (df : dataframe) :
  Forall parses df ->
  points (snd (bulk_insert_points self (Some df))) = accepted df /\
  (fst (bulk_insert_points self (Some df)) = true <-> accepted df <> []).
Proof.
  intros Hp. destruct (bulk_insert_columns Hp) as [lats [lons [E1 [E2 E3]]]].
  unfold bulk_insert_points. rewrite E1, E2. cbn [bind]. rewrite E3.
  destruct (accepted df) as [| p pts]; simpl.
  - split; [reflexivity |]. split; [discriminate | congruence].
  - split; [reflexivity |]. split; [discriminate | reflexivity].
Qed.

Lemma bulk_insert_points_accepts_box_records_witness :
  points (snd (bulk_insert_points init (Some csv_mixed))) = accepted csv_mixed /\
  (fst (bulk_insert_points init (Some csv_mixed)) = true <-> accepted csv_mixed <> []).
Proof.
  apply bulk_insert_points_accepts_box_records.
  unfold csv_mixed, parses.
  repeat (apply Forall_cons; [intros _; split; discriminate |]).
  apply Forall_nil.
Defined.

(** ** Radius queries *)

Lemma max_ge_l (a b : Q) : (a <= Py.max a b)%Q.
Proof.
  unfold Py.max. destruct (Qle_bool b a) eqn:E; [apply Qle_refl |].
  apply Qlt_le_weak. now apply Qle_bool_false.
Qed.

Lemma max_ge_r (a b : Q) : (b <= Py.max a b)%Q.
Proof.
  unfold Py.max. destruct (Qle_bool b a) eqn:E; [| apply Qle_refl].
  now apply Qle_bool_iff.
Qed.

Lemma Qabs_pos_nonzero (q : Q) : ~ (q == 0)%Q -> (0 < Qabs q)%Q.
Proof.
  intros Hq. apply Qabs_case; intros H.
  - destruct (Q_dec q 0) as [[Hlt | Hgt] | Heq]; [lra | exact Hgt | contradiction].
  - destruct (Q_dec q 0) as [[Hlt | Hgt] | Heq]; [lra | lra | contradiction].
Qed.

Lemma truediv_pos (a b : Q) : (0 < b)%Q -> truediv a b = Returns (a / b)%Q.
Proof.
  intros Hb. unfold truediv. destruct (Qeq_bool b 0) eqn:E; [| reflexivity].
  apply Qeq_bool_iff in E. lra.
Qed.

Lemma Qdiv_nonneg (a b : Q) : (0 <= a)%Q -> (0 < b)%Q -> (0 <= a / b)%Q.
Proof.
  intros Ha Hb. apply Qle_shift_div_l; [exact Hb |].
  now rewrite Qmult_0_l.
Qed.

(** Away from the equator the conversion succeeds and the lookup radius
    is the larger of the two degree radii: every indexed point within
    either radius of the centre is returned. *)
Lemma fast_spatial_query_covers_both_radii
    (self : FastPostGISLike) (tree : KDTree.t) (lat_center lon_center radius_km : Q) :
  kdtree self = Some tree ->
  ~ (lat_center == 0)%Q ->
  (0 <= radius_km)%Q ->
  exists lat_r lon_r ids,
    lat_radius radius_km = Returns lat_r /\
    lon_radius lat_center radius_km = Returns lon_r /\
    fast_spatial_query self (lat_center, lon_center) radius_km = Returns ids /\
    forall i p,
      nth_error (KDTree.data tree) i = Some p ->
      (KDTree.dist2 (lat_center, lon_center) p <= lat_r * lat_r)%Q \/
      (KDTree.dist2 (lat_center, lon_center) p <= lon_r * lon_r)%Q ->
      In i ids.
Proof.
  intros Ht Hlat Hr.
  assert (Hkm : (0 < km_per_degree)%Q) by reflexivity.
  assert (Hden : (0 < km_per_degree * Qabs lat_center * np_pi / 180)%Q).
  { unfold Qdiv. repeat apply Qmult_lt_0_compat;
      [exact Hkm | now apply Qabs_pos_nonzero | reflexivity | reflexivity]. }
  exists (radius_km / km_per_degree)%Q,
         (radius_km / (km_per_degree * Qabs lat_center * np_pi / 180))%Q.
  eexists. split; [now apply truediv_pos |]. split; [now apply truediv_pos |].
  unfold fast_spatial_query, lat_radius, lon_radius. rewrite Ht.
  rewrite (truediv_pos _ Hkm), (truediv_pos _ Hden). cbn [bind try_except].
  split; [reflexivity |].
  intros i p Hp Hd. apply In_query_ball_point. exists p. split; [exact Hp |].
  set (lat_r := (radius_km / km_per_degree)%Q) in *.
  set (lon_r := (radius_km / (km_per_degree * Qabs lat_center * np_pi / 180))%Q) in *.
  assert (H1 : (0 <= lat_r)%Q) by (now apply Qdiv_nonneg).
  assert (H2 : (0 <= lon_r)%Q) by (now apply Qdiv_nonneg).
  pose proof (max_ge_l lat_r lon_r) as M1.
  pose proof (max_ge_r lat_r lon_r) as M2.
  unfold KDTree.within. apply Qle_bool_iff.
  destruct Hd as [Hd | Hd].
  - apply Qle_trans with (lat_r * lat_r)%Q; [exact Hd |].
    apply Qmult_le_compat_nonneg; split; assumption.
  - apply Qle_trans with (lon_r * lon_r)%Q; [exact Hd |].
    apply Qmult_le_compat_nonneg; split; assumption.
Qed.

Lemma sq_div_bound (d r m : Q) :
  (0 < m)%Q -> (d * (m * m) <= r * r)%Q -> (d <= (r / m) * (r / m))%Q.
Proof.
  intros Hm H.
  assert (E : ((r / m) * (r / m) == (r * r) / (m * m))%Q) by (field; lra).
  rewrite E. apply Qle_shift_div_l; [nra | exact H].
Qed.

Lemma ellipse_in_disc_lat (dlat dlon a b r : Q) :
  (0 < a)%Q -> (a <= b)%Q ->
  ((dlat * a) * (dlat * a) + (dlon * b) * (dlon * b) <= r * r)%Q ->
  ((dlat * dlat + dlon * dlon) * (a * a) <= r * r)%Q.
Proof.
  intros Ha Hab H.
  assert (H1 : (0 <= dlon * dlon)%Q) by nra.
  assert (H2 : (a * a <= b * b)%Q) by nra.
  assert (H3 : (0 <= (dlon * dlon) * (b * b - a * a))%Q)
    by (apply Qmult_le_0_compat; lra).
  nra.
Qed.

Lemma ellipse_in_disc_lon (dlat dlon a b r : Q) :
  (0 < b)%Q -> (b <= a)%Q ->
  ((dlat * a) * (dlat * a) + (dlon * b) * (dlon * b) <= r * r)%Q ->
  ((dlat * dlat + dlon * dlon) * (b * b) <= r * r)%Q.
Proof.
  intros Hb Hba H.
  assert (H1 : (0 <= dlat * dlat)%Q) by nra.
  assert (H2 : (b * b <= a * a)%Q) by nra.
  assert (H3 : (0 <= (dlat * dlat) * (a * a - b * b))%Q)
    by (apply Qmult_le_0_compat; lra).
  nra.
Qed.

(** Away from the equator there is no false negative: every indexed point
    whose linearised distance to the centre is at most [radius_km] is
    returned. *)
Lemma fast_spatial_query_no_false_negative_off_equator
    (self : FastPostGISLike) (tree : KDTree.t) (lat_center lon_center radius_km : Q) :
  kdtree self = Some tree ->
  ~ (lat_center == 0)%Q ->
  (0 <= radius_km)%Q ->
  exists ids,
    fast_spatial_query self (lat_center, lon_center) radius_km = Returns ids /\
    forall i p,
      nth_error (KDTree.data tree) i = Some p ->
      (linearized_km2 (lat_center, lon_center) p <= radius_km * radius_km)%Q ->
      In i ids.
Proof.
  intros Ht Hlat Hr.
  destruct (fast_spatial_query_covers_both_radii self lon_center Ht Hlat Hr)
    as [lat_r [lon_r [ids [E1 [E2 [E3 Hcov]]]]]].
  exists ids. split; [exact E3 |].
  intros i p Hp Hkm. apply (Hcov i p Hp).
  assert (Hkm0 : (0 < km_per_degree)%Q) by reflexivity.
  assert (Hden : (0 < km_per_lon_degree lat_center)%Q).
  { unfold km_per_lon_degree, Qdiv. repeat apply Qmult_lt_0_compat;
      [exact Hkm0 | now apply Qabs_pos_nonzero | reflexivity | reflexivity]. }
  unfold lat_radius in E1. rewrite (truediv_pos _ Hkm0) in E1.
  unfold lon_radius in E2. fold (km_per_lon_degree lat_center) in E2.
  rewrite (truediv_pos _ Hden) in E2.
  inversion E1; subst lat_r. inversion E2; subst lon_r.
  unfold linearized_km2 in Hkm. cbn [fst snd] in Hkm. unfold KDTree.dist2. cbn [fst snd].
  destruct (Qlt_le_dec (km_per_lon_degree lat_center) km_per_degree) as [Hlt | Hle].
  - right. apply sq_div_bound; [exact Hden |].
    apply ellipse_in_disc_lon with (a := km_per_degree); [exact Hden | lra | exact Hkm].
  - left. apply sq_div_bound; [exact Hkm0 |].
    apply ellipse_in_disc_lat with (b := km_per_lon_degree lat_center);
      [exact Hkm0 | exact Hle | exact Hkm].
Qed.

(** C1, evaluated where the code fails it.  One point is loaded; the query
    is centred on the equator with a radius of 3000 km.  The latitude
    radius is 3000 / 111.32 degrees and the point lies within it, but the
    longitude radius divides by zero, the exception is swallowed and the
    query returns nothing. *)
Theorem fast_spatial_query_equator_misses_point :
  let self := loaded csv_one in
  let center := (0, -4663 # 100)%Q in
  exists lat_r p,
    lat_radius 3000 = Returns lat_r /\
    nth_error (points self) 0 = Some p /\
    (KDTree.dist2 center p <= lat_r * lat_r)%Q /\
    lon_radius (fst center) 3000 = Raises ZeroDivisionError /\
    fast_spatial_query self center 3000 = Returns [].
Proof.
  exists (3000 / km_per_degree)%Q, (-2355 # 100, -4663 # 100)%Q.
  repeat split; try (vm_compute; reflexivity).
  vm_compute. discriminate.
Qed.

(** C2, evaluated where the code departs from it.  At the centre used by
    [benchmark_queries], latitude -23.5505 and radius 5 km, the code's
    longitude radius (the kilometres divided by [111.32 * |lat| * pi / 180],
    the latitude in radians and not its cosine) exceeds 0.109 degrees, while
    the claimed [radius_km / (111.32 * cos(lat in radians))] is below 0.09
    degrees. *)
Theorem lon_radius_is_not_the_cosine_formula :
  exists lon_r,
    lon_radius (-235505 # 10000) 5 = Returns lon_r /\
    (109 # 1000 < lon_r)%Q /\
    (spec_lon_degree_radius (-235505 / 10000) 5 < 9 / 100)%R.
Proof.
  eexists. split; [vm_compute; reflexivity |]. split; [vm_compute; reflexivity |].
  unfold spec_lon_degree_radius.
  assert (Hpi : (0 < PI)%R) by apply PI_RGT_0.
  assert (Hcos : (1 / 2 <= cos (-235505 / 10000 * PI / 180))%R).
  { replace (-235505 / 10000 * PI / 180)%R
      with (- (235505 / 10000 * PI / 180))%R by Lra.lra.
    rewrite cos_neg, <- cos_PI3. apply cos_decr_1; Lra.lra. }
  set (c := cos (-235505 / 10000 * PI / 180)) in *.
  assert (Hinv : (/ (11132 / 100 * c) <= / (11132 / 100 * (1 / 2)))%R)
    by (apply Rinv_le_contravar; Lra.lra).
  unfold Rdiv at 1. rewrite Rmult_1_l.
  replace (/ (11132 / 100 * (1 / 2)))%R with (100 / 5566)%R in Hinv by (field).
  Lra.lra.
Qed.

(** ** Batch assignment *)

(** C4, as stated, fails in its last part: with two reference nodes the
    chunked assignment returns one record per subject point, while the
    distance-matrix function returns [None]: the Voronoi diagram it builds
    first cannot be constructed from two points, and the function returns
    before it computes any distance. *)
Lemma matrix_version_returns_nothing_for_two_nodes :
  create_optimized_voronoi_assignment 10000 [(0, 4)%Q; (0, 6)%Q] nodes_sample
    = Returns [ (0, mkAssignment (0, 4)%Q 100%Z (Sqrt 16));
                (1, mkAssignment (0, 6)%Q 102%Z (Sqrt 16)) ] /\
  Qhull.Voronoi (fst (extract_nodes nodes_sample)) = Raises QhullError /\
  create_voronoi_assignment Qhull.Voronoi [(0, 4)%Q; (0, 6)%Q] nodes_sample
    = Returns None.
Proof.
  split; [vm_compute; reflexivity |]. split; vm_compute; reflexivity.
Qed.

(** Nor can the identities of the two versions be compared among
    equidistant reference points: the library's contract leaves their
    order open.  It admits an answer that lists the higher index first,
    and with such an answer the chunked assignment records node 102 for
    the subject [(0, 5)], at the same distance as node 100, which the
    matrix version records. *)
Lemma order_among_equidistant_points_shows :
  KDTree.nearest_first KDTree.higher_index_first /\
  create_optimized_voronoi_assignment_by KDTree.higher_index_first 10000
    [(0, 5)%Q] nodes_square
    = Returns [ (0, mkAssignment (0, 5)%Q 102%Z (Sqrt 25)) ] /\
  create_voronoi_assignment Qhull.Voronoi [(0, 5)%Q] nodes_square
    = Returns (Some [ (0, mkAssignment (0, 5)%Q 100%Z (Sqrt 25)) ]).
Proof.
  split; [exact higher_index_first_nearest_first |].
  split; vm_compute; reflexivity.
Qed.

(** C4 (amended): for a non-empty reference set and whatever order the
    library keeps among equidistant points, any two chunk sizes give the
    same assignment records: one per subject point, in subject order,
    holding a nearest reference node and its distance.  The
    distance-matrix function returns [None] when its Voronoi construction
    raises; otherwise, for a non-empty subject set, it returns one record
    per subject point, holding the nearest reference node of lowest index
    and its distance.  Record by record the two versions hold the same
    subject point and equal distances; they hold the same node whenever
    the subject point has a single nearest reference node. *)
Theorem assignment_independent_of_chunk_size
    (order : KDTree.t -> point -> list (nat * point))
    (Voronoi : list point -> outcome unit)
    (chunk_a chunk_b : nat) (analyzer_points : list point) (nodes : graph_nodes) :
  KDTree.nearest_first order ->
  1 <= chunk_a -> 1 <= chunk_b ->
  fst (extract_nodes nodes) <> [] ->
  let node_coords := fst (extract_nodes nodes) in
  let node_ids := snd (extract_nodes nodes) in
  let tree := KDTree.Build node_coords in
  let chunked := assigned_by order node_coords node_ids analyzer_points in
  let matrix := assigned node_coords node_ids analyzer_points in
  create_optimized_voronoi_assignment_by order chunk_a analyzer_points nodes
    = Returns chunked /\
  create_optimized_voronoi_assignment_by order chunk_b analyzer_points nodes
    = Returns chunked /\
  (analyzer_points <> [] ->
   create_voronoi_assignment Voronoi analyzer_points nodes =
   match Voronoi node_coords with
   | Returns _ => Returns (Some matrix)
   | Raises _ => Returns None
   end) /\
  length chunked = length analyzer_points /\
  length matrix = length analyzer_points /\
  length node_ids = length node_coords /\
  forall i cp, nth_error analyzer_points i = Some cp ->
    exists j m,
      nth_error chunked i =
        Some (i, mkAssignment cp (nth j node_ids 0%Z) (Sqrt (dist_to tree cp j))) /\
      nth_error matrix i =
        Some (i, mkAssignment cp (nth m node_ids 0%Z) (Sqrt (dist_to tree cp m))) /\
      is_nearest node_coords cp j /\
      is_nearest node_coords cp m /\
      (forall j', is_nearest node_coords cp j' -> m <= j') /\
      (dist_to tree cp j == dist_to tree cp m)%Q /\
      ((forall j', is_nearest node_coords cp j' -> j' = m) -> j = m).
Proof.
  intros Hord Ha Hb Hne node_coords node_ids tree chunked matrix.
  split; [now apply optimized_assignment_by_closed_form |].
  split; [now apply optimized_assignment_by_closed_form |].
  split; [intros Hp; now apply matrix_assignment_closed_form |].
  split; [unfold chunked, assigned_by; now rewrite length_enumerate, length_map |].
  split; [unfold matrix, assigned; now rewrite length_enumerate, length_map |].
  split; [apply extract_nodes_length |].
  intros i cp Hi.
  destruct (@idx_by_is_nearest order node_coords cp Hord Hne) as [Hj Hdj].
  destruct (@near_idx_is_lowest_nearest node_coords cp Hne) as [Hm [Hlow Hdm]].
  exists (idx_by order node_coords cp), (near_idx node_coords cp).
  split; [| split; [| split; [exact Hj | split; [exact Hm | split; [exact Hlow |]]]]].
  - unfold chunked, assigned_by.
    rewrite nth_error_enumerate, nth_error_map, Hi. cbn [option_map].
    unfold record_by. now rewrite Hdj.
  - unfold matrix, assigned.
    rewrite nth_error_enumerate, nth_error_map, Hi. cbn [option_map].
    unfold record_of. now rewrite Hdm.
  - split.
    + apply Qle_antisym; [apply (proj2 Hj), (proj1 Hm) | apply (proj2 Hm), (proj1 Hj)].
    + intros Huniq. now apply Huniq.
Qed.

Lemma assignment_independent_of_chunk_size_witness :
  create_optimized_voronoi_assignment_by KDTree.by_distance 1 subjects_sample nodes_square
    = Returns (assigned_by KDTree.by_distance (fst (extract_nodes nodes_square))
                           (snd (extract_nodes nodes_square)) subjects_sample) /\
  create_optimized_voronoi_assignment_by KDTree.by_distance 10000 subjects_sample
                                         nodes_square
    = Returns (assigned_by KDTree.by_distance (fst (extract_nodes nodes_square))
                           (snd (extract_nodes nodes_square)) subjects_sample) /\
  create_voronoi_assignment Qhull.Voronoi subjects_sample nodes_square
    = Returns (Some (assigned (fst (extract_nodes nodes_square))
                              (snd (extract_nodes nodes_square)) subjects_sample)).
Proof.
  destruct (@assignment_independent_of_chunk_size KDTree.by_distance Qhull.Voronoi
              1 10000 subjects_sample nodes_square)
    as [H1 [H2 [H3 _]]].
  - exact by_distance_nearest_first.
  - lia.
  - apply Nat.leb_le; vm_compute; reflexivity.
  - discriminate.
  - split; [exact H1 |]. split; [exact H2 |].
    rewrite H3 by discriminate. reflexivity.
Defined.

(** C5: for every chunk size the records come out in subject order, keyed
    [0 .. N-1], each key once, the record of key [g] being that of subject
    [g]; the [j]-th point of the chunk starting at [i] is recorded under
    [i + j]. *)
Theorem assignment_keys_follow_subject_order
    (batch_size : nat) (analyzer_points : list point) (nodes : graph_nodes) :
  1 <= batch_size ->
  fst (extract_nodes nodes) <> [] ->
  exists records,
    create_optimized_voronoi_assignment batch_size analyzer_points nodes = Returns records /\
    map fst records = seq 0 (length analyzer_points) /\
    map (fun kv => crime_point (snd kv)) records = analyzer_points /\
    (forall c j cp,
        let i := c * batch_size in
        let batch_end := Nat.min (i + batch_size) (length analyzer_points) in
        nth_error (slice analyzer_points i batch_end) j = Some cp ->
        exists a, nth_error records (i + j) = Some (i + j, a) /\ crime_point a = cp).
Proof.
  intros Hb Hne. eexists. split; [| split; [| split]].
  - apply optimized_assignment_closed_form; assumption.
  - apply assigned_keys.
  - unfold assigned. rewrite <- (map_map snd crime_point).
    rewrite map_snd_enumerate, map_map.
    rewrite (map_ext _ (fun cp => cp)) by reflexivity. apply map_id.
  - intros c j cp i batch_end Hj. unfold slice in Hj.
    rewrite nth_error_firstn in Hj.
    destruct (j <? batch_end - i); [| discriminate].
    rewrite nth_error_skipn in Hj.
    exists (record_of (fst (extract_nodes nodes)) (snd (extract_nodes nodes)) cp).
    split; [| reflexivity].
    unfold assigned. rewrite nth_error_enumerate, nth_error_map, Hj. reflexivity.
Qed.

Lemma assignment_keys_follow_subject_order_witness :
  exists records,
    create_optimized_voronoi_assignment 2 subjects_sample nodes_sample = Returns records /\
    map fst records = seq 0 (length subjects_sample).
Proof.
  destruct (@assignment_keys_follow_subject_order 2 subjects_sample nodes_sample)
    as [records [H1 [H2 _]]]; [lia | discriminate |].
  exists records. split; [exact H1 | exact H2].
Defined.

(** C6, as stated, fails: with no reference point the call raises the
    [ValueError] of the index constructor, not [EmptyReferenceSet]. *)
Lemma empty_reference_set_raises_ValueError :
  create_optimized_voronoi_assignment 10000 subjects_sample [] = Raises ValueError /\
  create_optimized_voronoi_assignment 10000 subjects_sample []
    <> Raises EmptyReferenceSet.
Proof.
  split; [reflexivity | discriminate].
Qed.

(** C6 (amended): with an empty reference set the assignment stops at the
    construction of the index, which raises [ValueError]; the exception is
    not caught, and no record or distance is produced, whatever the subject
    set and the chunk size. *)
Theorem empty_reference_set_fails_fast
    (batch_size : nat) (analyzer_points : list point) (nodes : graph_nodes) :
  fst (extract_nodes nodes) = [] ->
  create_optimized_voronoi_assignment batch_size analyzer_points nodes
    = Raises ValueError.
Proof.
  intros He. unfold create_optimized_voronoi_assignment.
  destruct (extract_nodes nodes) as [node_coords node_ids]. simpl in He.
  subst node_coords. reflexivity.
Qed.

Lemma empty_reference_set_fails_fast_witness :
  create_optimized_voronoi_assignment 10000 subjects_sample
    [(7%Z, mkNode None (Some 1%Q))] = Raises ValueError.
Proof.
  apply empty_reference_set_fails_fast. reflexivity.
Defined.


(* ================================================================== *)
(** * Further properties of the code *)

(** ** The assignment: nearest node, recorded distance, fallback *)

Lemma In_assigned (node_coords : list point) (node_ids : list Z)
    (cps : list point) (g : nat) (a : assignment) :
  In (g, a) (assigned node_coords node_ids cps) ->
  exists cp, nth_error cps g = Some cp /\ a = record_of node_coords node_ids cp.
Proof.
  unfold assigned. intros H. apply In_enumerate in H.
  rewrite nth_error_map in H.
  destruct (nth_error cps g) as [cp |]; [| discriminate].
  exists cp. split; [reflexivity |]. simpl in H. congruence.
Qed.

Lemma optimized_assignment_records
    (batch_size : nat) (analyzer_points : list point) (nodes : graph_nodes)
    (records : assignments) :
  1 <= batch_size ->
  create_optimized_voronoi_assignment batch_size analyzer_points nodes = Returns records ->
  fst (extract_nodes nodes) <> [] /\
  records = assigned (fst (extract_nodes nodes)) (snd (extract_nodes nodes))
                     analyzer_points.
Proof.
  intros Hb Hr.
  destruct (fst (extract_nodes nodes)) as [| c cs] eqn:E.
  - rewrite (empty_reference_set_is_refused batch_size analyzer_points nodes E) in Hr.
    discriminate.
  - assert (Hne : fst (extract_nodes nodes) <> []) by (rewrite E; discriminate).
    rewrite (@optimized_assignment_closed_form batch_size analyzer_points nodes Hb Hne) in Hr.
    rewrite <- E. split; [exact Hne | congruence].
Qed.

(** Every subject point is assigned to a nearest reference point: the
    recorded distance is not larger than the distance to any node. *)
Theorem assignment_distance_is_minimal
    (batch_size : nat) (analyzer_points : list point) (nodes : graph_nodes)
    (records : assignments) (g : nat) (a : assignment) (p' : point) :
  1 <= batch_size ->
  create_optimized_voronoi_assignment batch_size analyzer_points nodes = Returns records ->
  In (g, a) records ->
  In p' (fst (extract_nodes nodes)) ->
  exists d2, distance a = Sqrt d2 /\ (d2 <= KDTree.dist2 (crime_point a) p')%Q.
Proof.
  intros Hb Hr Hin Hp'.
  destruct (@optimized_assignment_records batch_size analyzer_points nodes records Hb Hr)
    as [Hne ->].
  apply In_assigned in Hin. destruct Hin as [cp [_ ->]].
  destruct (nearest_nonempty cp Hne) as [j [p [E Hj]]].
  apply In_nth_error in Hp'. destruct Hp' as [j' Hj'].
  exists (KDTree.dist2 cp p). unfold record_of, near_dist. rewrite E. simpl.
  split; [reflexivity |]. exact (nearest_is_minimal _ _ E _ Hj').
Qed.

Lemma assignment_distance_is_minimal_witness :
  exists d2,
    distance (mkAssignment (0, 4)%Q 100%Z (Sqrt 16)) = Sqrt d2 /\
    (d2 <= KDTree.dist2 (crime_point (mkAssignment (0, 4)%Q 100%Z (Sqrt 16))) (0, 10)%Q)%Q.
Proof.
  apply (@assignment_distance_is_minimal 2 subjects_sample nodes_sample
           [(0, mkAssignment (0, 4)%Q 100%Z (Sqrt 16));
            (1, mkAssignment (0, 6)%Q 102%Z (Sqrt 16));
            (2, mkAssignment (0, 5)%Q 100%Z (Sqrt 25))]
           0 (mkAssignment (0, 4)%Q 100%Z (Sqrt 16)) (0, 10)%Q).
  - lia.
  - vm_compute. reflexivity.
  - simpl. left. reflexivity.
  - simpl. right. left. reflexivity.
Defined.

Lemma node_dict_set_fresh (V : Type) (d : node_dict V) (key : Z) (v : V) :
  ~ In key (map fst d) -> node_dict_set d key v = d ++ [(key, v)].
Proof.
  induction d as [| [k' v'] d IH]; simpl; intros H; [reflexivity |].
  destruct (k' =? key)%Z eqn:E.
  - apply Z.eqb_eq in E. exfalso. apply H. now left.
  - rewrite IH; [reflexivity |]. intros Hk. apply H. now right.
Qed.

Lemma extract_nodes_ids_incl (nodes : graph_nodes) (k : Z) :
  In k (snd (extract_nodes nodes)) -> In k (map fst nodes).
Proof.
  induction nodes as [| [node_id data] nodes IH]; simpl; [tauto |].
  destruct (extract_nodes nodes) as [coords ids]. simpl in IH.
  destruct (y data), (x data); simpl; intuition.
Qed.

Lemma extract_nodes_ids_NoDup (nodes : graph_nodes) :
  NoDup (map fst nodes) -> NoDup (snd (extract_nodes nodes)).
Proof.
  induction nodes as [| [node_id data] nodes IH]; simpl; intros H; [constructor |].
  inversion H as [| ? ? Hnot Hnd]; subst.
  pose proof (extract_nodes_ids_incl nodes node_id) as Hincl.
  destruct (extract_nodes nodes) as [coords ids]. simpl in *.
  destruct (y data), (x data); simpl; auto.
  constructor; auto.
Qed.

(** With distinct node identifiers the dict of the plot is the list of
    the nodes that have coordinates, in graph order. *)
Lemma node_id_to_coords_combine (nodes : graph_nodes) :
  NoDup (map fst nodes) ->
  node_id_to_coords nodes =
  combine (snd (extract_nodes nodes)) (fst (extract_nodes nodes)).
Proof.
  unfold node_id_to_coords.
  assert (H : forall acc,
             NoDup (map fst nodes) ->
             (forall k, In k (map fst acc) -> ~ In k (map fst nodes)) ->
             fold_left
               (fun d nd =>
                  let '(node_id, data) := nd in
                  match y data, x data with
                  | Some lat, Some lon => node_dict_set d node_id (lat, lon)
                  | _, _ => d
                  end) nodes acc
             = acc ++ combine (snd (extract_nodes nodes)) (fst (extract_nodes nodes))).
  { induction nodes as [| [node_id data] nodes IH]; intros acc Hnd Hacc.
    - simpl. now rewrite app_nil_r.
    - inversion Hnd as [| ? ? Hnot Hnd']; subst. cbn [fold_left extract_nodes].
      destruct (extract_nodes nodes) as [coords ids] eqn:E. cbn [fst snd] in *.
      assert (Hrest : forall acc' : node_dict point,
                 (forall k, In k (map fst acc') -> k = node_id \/ In k (map fst acc)) ->
                 forall k, In k (map fst acc') -> ~ In k (map fst nodes)).
      { intros acc' Hsub k Hk Hin. destruct (Hsub k Hk) as [-> | Hk'].
        - contradiction.
        - apply (Hacc k Hk'). simpl. now right. }
      destruct (y data) as [lat |], (x data) as [lon |]; cbn [fst snd];
        try (rewrite IH; [reflexivity | exact Hnd' |];
             apply Hrest; intros k Hk; now right).
      rewrite node_dict_set_fresh
        by (intros Hk; apply (Hacc node_id Hk); simpl; now left).
      rewrite IH; [now rewrite <- app_assoc | exact Hnd' |].
      apply Hrest. intros k Hk. rewrite map_app in Hk. apply in_app_or in Hk.
      destruct Hk as [Hk | [<- | []]]; auto. }
  intros Hnd. rewrite H; [reflexivity | exact Hnd | intros k []].
Qed.

Lemma node_dict_get_combine (V : Type) (ids : list Z) (vs : list V)
    (j : nat) (k : Z) (v : V) :
  NoDup ids ->
  nth_error ids j = Some k -> nth_error vs j = Some v ->
  node_dict_get (combine ids vs) k = Some v.
Proof.
  revert vs j. induction ids as [| k0 ids IH]; intros vs j Hnd Hk Hv.
  - destruct j; discriminate.
  - inversion Hnd as [| ? ? Hnot Hnd']; subst.
    destruct vs as [| v0 vs]; [destruct j; discriminate |].
    destruct j as [| j]; simpl in *.
    + inversion Hk; inversion Hv; subst. now rewrite Z.eqb_refl.
    + destruct (k0 =? k)%Z eqn:E.
      * apply Z.eqb_eq in E. subst k0. exfalso. apply Hnot.
        eapply nth_error_In, Hk.
      * eapply IH; eauto.
Qed.

(** Each record names a node of the graph, and the recorded distance is
    the distance from the crime point to that node: the lookup of
    [visualize_optimized_assignment] in [node_id_to_coords] always finds
    the node the distance was measured to. *)
Theorem assignment_record_is_consistent
    (batch_size : nat) (analyzer_points : list point) (nodes : graph_nodes)
    (records : assignments) (g : nat) (a : assignment) :
  1 <= batch_size ->
  NoDup (map fst nodes) ->
  create_optimized_voronoi_assignment batch_size analyzer_points nodes = Returns records ->
  In (g, a) records ->
  exists p,
    node_dict_get (node_id_to_coords nodes) (nearest_node_id a) = Some p /\
    distance a = Sqrt (KDTree.dist2 (crime_point a) p).
Proof.
  intros Hb Hnd Hr Hin.
  destruct (@optimized_assignment_records batch_size analyzer_points nodes records Hb Hr)
    as [Hne ->].
  apply In_assigned in Hin. destruct Hin as [cp [_ ->]].
  destruct (nearest_nonempty cp Hne) as [j [p [E Hj]]].
  exists p. unfold record_of, near_dist, near_idx. rewrite E. simpl.
  split; [| reflexivity].
  rewrite (node_id_to_coords_combine nodes Hnd).
  apply node_dict_get_combine with (j := j);
    [now apply extract_nodes_ids_NoDup | | exact Hj].
  apply nth_error_nth'. rewrite extract_nodes_length.
  apply nth_error_Some. congruence.
Qed.

Lemma assignment_record_is_consistent_witness :
  exists p,
    node_dict_get (node_id_to_coords nodes_sample) 102%Z = Some p /\
    Sqrt 16 = Sqrt (KDTree.dist2 (0, 6)%Q p).
Proof.
  apply (@assignment_record_is_consistent 2 subjects_sample nodes_sample
           [(0, mkAssignment (0, 4)%Q 100%Z (Sqrt 16));
            (1, mkAssignment (0, 6)%Q 102%Z (Sqrt 16));
            (2, mkAssignment (0, 5)%Q 100%Z (Sqrt 25))]
           1 (mkAssignment (0, 6)%Q 102%Z (Sqrt 16))).
  - lia.
  - vm_compute. repeat constructor; simpl; intuition; discriminate.
  - vm_compute. reflexivity.
  - simpl. right. left. reflexivity.
Defined.

Lemma kdtree_fallback_closed_form
    (analyzer_points node_coords : list point) (node_ids : list Z) :
  analyzer_points <> [] -> node_coords <> [] ->
  length node_ids = length node_coords ->
  create_kdtree_fallback analyzer_points node_coords node_ids =
  Returns (assigned node_coords node_ids analyzer_points).
Proof.
  intros Hp Hne Hlen. unfold create_kdtree_fallback, KDTree.cKDTree, KDTree.query.
  destruct node_coords as [| c0 cs] eqn:Ec; [congruence |]. rewrite <- Ec in *.
  destruct analyzer_points as [| p0 ps] eqn:Ep; [congruence |]. rewrite <- Ep in *.
  cbn [bind]. change (1 <? 1)%Z with false. change (Z.to_nat 1) with 1.
  cbn [bind fst snd].
  rewrite (map_ext _ (fun cp => ([near_dist node_coords cp], [near_idx node_coords cp])))
    by (intros cp; now apply query_row_one).
  rewrite !map_map. cbn [fst snd].
  rewrite (squeeze_rows (near_dist node_coords)), (squeeze_rows (near_idx node_coords)).
  unfold enumerate. rewrite !length_combine, !length_map, !Nat.min_id.
  etransitivity.
  - exact (@batch_loop node_coords node_ids Hne Hlen 0 analyzer_points 0 []
             (fun k (H : In k []) => match H with end)).
  - cbn [app Nat.add]. unfold assigned, enumerate. now rewrite length_map.
Qed.

(** The one-query fallback of [voronoi_real] computes the same records as
    the chunked loop, for every chunk size. *)
Theorem kdtree_fallback_agrees_with_chunked_assignment
    (batch_size : nat) (analyzer_points : list point) (nodes : graph_nodes) :
  1 <= batch_size ->
  analyzer_points <> [] ->
  fst (extract_nodes nodes) <> [] ->
  exists records,
    create_kdtree_fallback analyzer_points
      (fst (extract_nodes nodes)) (snd (extract_nodes nodes)) = Returns records /\
    create_optimized_voronoi_assignment batch_size analyzer_points nodes
      = Returns records.
Proof.
  intros Hb Hp Hne. eexists. split.
  - apply kdtree_fallback_closed_form;
      [exact Hp | exact Hne | apply extract_nodes_length].
  - now apply optimized_assignment_closed_form.
Qed.

Lemma kdtree_fallback_agrees_with_chunked_assignment_witness :
  exists records,
    create_kdtree_fallback subjects_sample
      (fst (extract_nodes nodes_sample)) (snd (extract_nodes nodes_sample))
      = Returns records /\
    create_optimized_voronoi_assignment 2 subjects_sample nodes_sample
      = Returns records.
Proof.
  apply kdtree_fallback_agrees_with_chunked_assignment; [lia | | ]; discriminate.
Defined.

(** The fallback has no guard of its own: with no crime point or no node
    it raises the library's [ValueError]. *)
Theorem kdtree_fallback_refuses_empty_input
    (analyzer_points node_coords : list point) (node_ids : list Z) :
  analyzer_points = [] \/ node_coords = [] ->
  create_kdtree_fallback analyzer_points node_coords node_ids = Raises ValueError.
Proof.
  intros H. unfold create_kdtree_fallback, KDTree.cKDTree, KDTree.query.
  destruct node_coords as [| c cs]; [reflexivity |].
  destruct H as [-> | H]; [reflexivity | discriminate].
Qed.

Lemma kdtree_fallback_refuses_empty_input_witness :
  create_kdtree_fallback [] [(0, 0)%Q] [100%Z] = Raises ValueError.
Proof.
  apply kdtree_fallback_refuses_empty_input. left. reflexivity.
Defined.

(** ** Counts per node *)

Lemma node_dict_get_set_same (V : Type) (d : node_dict V) (k : Z) (v : V) :
  node_dict_get (node_dict_set d k v) k = Some v.
Proof.
  induction d as [| [k' v'] d IH]; simpl.
  - now rewrite Z.eqb_refl.
  - destruct (k' =? k)%Z eqn:E; simpl; rewrite E; [reflexivity | exact IH].
Qed.

Lemma node_dict_get_set_other (V : Type) (d : node_dict V) (k k' : Z) (v : V) :
  k <> k' -> node_dict_get (node_dict_set d k v) k' = node_dict_get d k'.
Proof.
  intros Hne. induction d as [| [k0 v0] d IH]; simpl.
  - destruct (k =? k')%Z eqn:E; [apply Z.eqb_eq in E; contradiction | reflexivity].
  - destruct (k0 =? k)%Z eqn:E; simpl.
    + apply Z.eqb_eq in E. subst k0.
      destruct (k =? k')%Z eqn:E'; [apply Z.eqb_eq in E'; contradiction | reflexivity].
    + destruct (k0 =? k')%Z; [reflexivity | exact IH].
Qed.

Lemma node_dict_set_keys (V : Type) (d : node_dict V) (k : Z) (v : V) :
  map fst (node_dict_set d k v) =
  if in_dec Z.eq_dec k (map fst d) then map fst d else map fst d ++ [k].
Proof.
  induction d as [| [k' v'] d IH]; simpl; [reflexivity |].
  destruct (k' =? k)%Z eqn:E.
  - apply Z.eqb_eq in E. subst k'. simpl.
    destruct (Z.eq_dec k k); [| contradiction].
    reflexivity.
  - apply Z.eqb_neq in E. simpl. rewrite IH.
    destruct (Z.eq_dec k' k); [contradiction |].
    destruct (in_dec Z.eq_dec k (map fst d)); reflexivity.
Qed.

Lemma node_dict_set_sum (d : node_dict nat) (k : Z) :
  list_sum (map snd (node_dict_set d k (get_default d k 0 + 1))) =
  list_sum (map snd d) + 1.
Proof.
  unfold get_default. induction d as [| [k' v'] d IH]; simpl; [reflexivity |].
  destruct (k' =? k)%Z eqn:E; simpl; [lia |].
  rewrite IH. lia.
Qed.

(** The number of assignments whose nearest node is [k]. *)
Lemma count_by_node_fold (l : assignments) (acc : node_dict nat) (k : Z) :
  get_default
    (fold_left
       (fun node_crime_count kv =>
          let node_id := nearest_node_id (snd kv) in
          node_dict_set node_crime_count node_id
                        (get_default node_crime_count node_id 0 + 1))
       l acc) k 0
  = get_default acc k 0 + crimes_at k l.
Proof.
  revert acc. induction l as [| [g a] l IH]; intros acc.
  - simpl. unfold crimes_at. simpl. lia.
  - cbn [fold_left]. rewrite IH. cbn [snd].
    unfold crimes_at. cbn [map count_occ snd].
    destruct (Z.eq_dec (nearest_node_id a) k) as [-> | Hne].
    + unfold get_default at 1. rewrite node_dict_get_set_same. lia.
    + unfold get_default at 1. rewrite (node_dict_get_set_other _ _ Hne).
      fold (get_default acc k 0). lia.
Qed.

Lemma node_dict_set_Forall (V : Type) (P : V -> Prop) (d : node_dict V) (k : Z) (v : V) :
  Forall (fun kv => P (snd kv)) d -> P v ->
  Forall (fun kv => P (snd kv)) (node_dict_set d k v).
Proof.
  induction 1 as [| [k' v'] d Hv Hd IH]; simpl; intros Hp.
  - constructor; [exact Hp | constructor].
  - destruct (k' =? k)%Z; constructor; auto.
Qed.

Lemma node_dict_get_In (V : Type) (d : node_dict V) (k : Z) (v : V) :
  node_dict_get d k = Some v -> In (k, v) d.
Proof.
  induction d as [| [k' v'] d IH]; simpl; [discriminate |].
  destruct (k' =? k)%Z eqn:E.
  - apply Z.eqb_eq in E. intros H. inversion H; subst. now left.
  - intros H. right. now apply IH.
Qed.

Lemma count_by_node_invariants (l : assignments) (acc : node_dict nat) :
  let d := fold_left
       (fun node_crime_count kv =>
          let node_id := nearest_node_id (snd kv) in
          node_dict_set node_crime_count node_id
                        (get_default node_crime_count node_id 0 + 1))
       l acc in
  (Forall (fun kv => 1 <= snd kv) acc -> Forall (fun kv => 1 <= snd kv) d) /\
  (NoDup (map fst acc) -> NoDup (map fst d)) /\
  list_sum (map snd d) = list_sum (map snd acc) + length l.
Proof.
  revert acc. induction l as [| [g a] l IH]; intros acc; cbn [fold_left].
  - simpl. repeat split; auto.
  - cbv zeta in IH.
    destruct (IH (node_dict_set acc (nearest_node_id (snd (g, a)))
                    (get_default acc (nearest_node_id (snd (g, a))) 0 + 1)))
      as [H1 [H2 H3]].
    cbv zeta. split; [| split].
    + intros Hacc. apply H1.
      apply (node_dict_set_Forall (fun v => 1 <= v)); [exact Hacc | lia].
    + intros Hacc. apply H2. rewrite node_dict_set_keys.
      destruct (in_dec Z.eq_dec _ (map fst acc)) as [Hin | Hnot]; [exact Hacc |].
      apply NoDup_app; [exact Hacc | repeat constructor; intros [] |].
      intros k Hk [<- | []]. contradiction.
    + rewrite H3, node_dict_set_sum. simpl. lia.
Qed.

Lemma count_by_node_get (l : assignments) (k : Z) :
  get_default (count_by_node l) k 0 = crimes_at k l.
Proof. unfold count_by_node. now rewrite count_by_node_fold. Qed.

Lemma count_by_node_facts (l : assignments) :
  Forall (fun kv => 1 <= snd kv) (count_by_node l) /\
  NoDup (map fst (count_by_node l)) /\
  list_sum (map snd (count_by_node l)) = length l.
Proof.
  destruct (count_by_node_invariants l []) as [H1 [H2 H3]].
  unfold count_by_node. split; [| split].
  - apply H1. constructor.
  - apply H2. constructor.
  - exact H3.
Qed.

(** [analyze_node_crime_density] counts, for every node, the assignments
    that name it: a node is a key exactly when at least one crime point was
    assigned to it, and its value is the number of those points. *)
Theorem analyze_counts_assignments_per_node
    (assignments : assignments) (node_crime_count : node_dict nat) (k : Z) :
  analyze_node_crime_density assignments = Returns node_crime_count ->
  match node_dict_get node_crime_count k with
  | Some c => c = crimes_at k assignments /\ 1 <= c
  | None => crimes_at k assignments = 0
  end.
Proof.
  unfold analyze_node_crime_density. intros H.
  destruct (max_of (map snd (count_by_node assignments))); [| discriminate].
  cbn [bind] in H. inversion H; subst node_crime_count. clear H.
  pose proof (count_by_node_get assignments k) as Hc.
  destruct (count_by_node_facts assignments) as [Hpos _].
  unfold get_default in Hc.
  destruct (node_dict_get (count_by_node assignments) k) as [c |] eqn:E.
  - split; [exact Hc |]. apply node_dict_get_In in E.
    rewrite Forall_forall in Hpos. exact (Hpos _ E).
  - symmetry. exact Hc.
Qed.

Lemma analyze_counts_assignments_per_node_witness :
  match node_dict_get [(100%Z, 2); (102%Z, 1)] 100%Z with
  | Some c =>
      c = crimes_at 100%Z
            [(0, mkAssignment (0, 4)%Q 100%Z (Sqrt 16));
             (1, mkAssignment (0, 6)%Q 102%Z (Sqrt 16));
             (2, mkAssignment (0, 5)%Q 100%Z (Sqrt 25))] /\ 1 <= c
  | None =>
      crimes_at 100%Z
        [(0, mkAssignment (0, 4)%Q 100%Z (Sqrt 16));
         (1, mkAssignment (0, 6)%Q 102%Z (Sqrt 16));
         (2, mkAssignment (0, 5)%Q 100%Z (Sqrt 25))] = 0
  end.
Proof.
  apply analyze_counts_assignments_per_node. vm_compute. reflexivity.
Defined.

(** The counts add up to the number of assignments, and no node appears
    twice among the keys. *)
Theorem analyze_counts_add_up
    (assignments : assignments) (node_crime_count : node_dict nat) :
  analyze_node_crime_density assignments = Returns node_crime_count ->
  list_sum (map snd node_crime_count) = length assignments /\
  NoDup (map fst node_crime_count).
Proof.
  unfold analyze_node_crime_density. intros H.
  destruct (max_of (map snd (count_by_node assignments))); [| discriminate].
  cbn [bind] in H. inversion H; subst node_crime_count. clear H.
  destruct (count_by_node_facts assignments) as [_ [Hnd Hsum]].
  split; [exact Hsum | exact Hnd].
Qed.

Lemma analyze_counts_add_up_witness :
  list_sum (map snd [(100%Z, 2); (102%Z, 1)]) = 3 /\
  NoDup (map fst [(100%Z, 2); (102%Z, 1)]).
Proof.
  apply (@analyze_counts_add_up
           [(0, mkAssignment (0, 4)%Q 100%Z (Sqrt 16));
            (1, mkAssignment (0, 6)%Q 102%Z (Sqrt 16));
            (2, mkAssignment (0, 5)%Q 100%Z (Sqrt 25))]).
  vm_compute. reflexivity.
Defined.

(** With no assignment at all the function does not return an empty dict:
    [max(crime_counts)] raises [ValueError]; with at least one assignment
    it returns. *)
Theorem analyze_raises_exactly_on_no_assignment (assignments : assignments) :
  match assignments with
  | [] => analyze_node_crime_density assignments = Raises ValueError
  | _ :: _ =>
      exists node_crime_count,
        analyze_node_crime_density assignments = Returns node_crime_count
  end.
Proof.
  destruct assignments as [| kv l] eqn:E; [reflexivity |]. rewrite <- E.
  unfold analyze_node_crime_density.
  destruct (count_by_node_facts assignments) as [_ [_ Hsum]].
  destruct (count_by_node assignments) as [| kv' d].
  - simpl in Hsum. rewrite E in Hsum. discriminate.
  - eexists. reflexivity.
Qed.


(** What [create_crime_heatmap_optimized] plots: one count per node with
    coordinates, in graph order. *)
Lemma heatmap_crime_counts_map (nodes : graph_nodes) (node_crime_count : node_dict nat) :
  heatmap_crime_counts nodes node_crime_count =
  map (fun node_id => get_default node_crime_count node_id 0)
      (snd (extract_nodes nodes)).
Proof.
  induction nodes as [| [node_id data] nodes IH]; simpl; [reflexivity |].
  destruct (extract_nodes nodes) as [coords ids]. simpl in IH.
  destruct (y data), (x data); simpl; rewrite IH; reflexivity.
Qed.

Lemma sum_indicator_absent (ids : list Z) (z : Z) :
  ~ In z ids ->
  list_sum (map (fun id => if Z.eq_dec z id then 1 else 0) ids) = 0.
Proof.
  induction ids as [| id ids IH]; simpl; intros H; [reflexivity |].
  destruct (Z.eq_dec z id) as [-> | Hne]; [exfalso; apply H; now left |].
  apply IH. intros Hin. apply H. now right.
Qed.

Lemma sum_indicator_present (ids : list Z) (z : Z) :
  NoDup ids -> In z ids ->
  list_sum (map (fun id => if Z.eq_dec z id then 1 else 0) ids) = 1.
Proof.
  induction 1 as [| id ids Hnot Hnd IH]; simpl; intros Hin; [contradiction |].
  destruct (Z.eq_dec z id) as [-> | Hne].
  - now rewrite sum_indicator_absent.
  - destruct Hin as [-> | Hin]; [contradiction | now apply IH].
Qed.

Lemma sum_count_occ (ids zs : list Z) :
  NoDup ids -> (forall z, In z zs -> In z ids) ->
  list_sum (map (fun id => count_occ Z.eq_dec zs id) ids) = length zs.
Proof.
  intros Hnd. induction zs as [| z zs IH]; intros Hin.
  - simpl. clear. induction ids; simpl; auto.
  - transitivity
      (list_sum (map (fun id => if Z.eq_dec z id then 1 else 0) ids) +
       list_sum (map (fun id => count_occ Z.eq_dec zs id) ids)).
    + clear. induction ids as [| id ids IHi]; [reflexivity |].
      unfold list_sum in *. cbn [map fold_right]. rewrite IHi. cbn [count_occ].
      destruct (Z.eq_dec z id); lia.
    + rewrite (sum_indicator_present z Hnd) by (apply Hin; now left).
      rewrite IH by (intros z' Hz'; apply Hin; now right). reflexivity.
Qed.

(** The whole pipeline keeps every crime point: the counts plotted by the
    heat map add up to the number of crime points. *)
Theorem heatmap_counts_every_crime_point
    (batch_size : nat) (analyzer_points : list point) (nodes : graph_nodes)
    (records : assignments) (node_crime_count : node_dict nat) :
  1 <= batch_size ->
  NoDup (map fst nodes) ->
  create_optimized_voronoi_assignment batch_size analyzer_points nodes = Returns records ->
  analyze_node_crime_density records = Returns node_crime_count ->
  list_sum (heatmap_crime_counts nodes node_crime_count) = length analyzer_points.
Proof.
  intros Hb Hnd Hr Ha.
  destruct (@optimized_assignment_records batch_size analyzer_points nodes records Hb Hr)
    as [Hne Hrec].
  unfold analyze_node_crime_density in Ha.
  destruct (max_of (map snd (count_by_node records))); [| discriminate].
  cbn [bind] in Ha. inversion Ha; subst node_crime_count. clear Ha.
  rewrite heatmap_crime_counts_map.
  rewrite (map_ext _ (fun id => crimes_at id records))
    by (intros id; apply count_by_node_get).
  unfold crimes_at. rewrite sum_count_occ.
  - rewrite length_map, Hrec. unfold assigned.
    now rewrite length_enumerate, length_map.
  - now apply extract_nodes_ids_NoDup.
  - intros z Hz. apply in_map_iff in Hz. destruct Hz as [[g a] [<- Hga]].
    rewrite Hrec in Hga. apply In_assigned in Hga. destruct Hga as [cp [_ ->]].
    unfold record_of; simpl. apply nth_In.
    rewrite extract_nodes_length. now apply near_idx_lt.
Qed.

Lemma heatmap_counts_every_crime_point_witness :
  list_sum (heatmap_crime_counts nodes_sample [(100%Z, 2); (102%Z, 1)])
  = length subjects_sample.
Proof.
  apply (@heatmap_counts_every_crime_point 2 subjects_sample nodes_sample
           [(0, mkAssignment (0, 4)%Q 100%Z (Sqrt 16));
            (1, mkAssignment (0, 6)%Q 102%Z (Sqrt 16));
            (2, mkAssignment (0, 5)%Q 100%Z (Sqrt 25))]).
  - lia.
  - vm_compute. repeat constructor; simpl; intuition; discriminate.
  - vm_compute. reflexivity.
  - vm_compute. reflexivity.
Defined.

(** ** The CSV processor and the bulk load *)

(** The strategy class and the bulk load keep the same records: the load
    succeeds exactly when [process] keeps at least one point, and it then
    stores the very list [process] returns. *)
Theorem process_agrees_with_bulk_insert (self : FastPostGISLike) (df : dataframe) :
  (fst (bulk_insert_points self (Some df)) = true <-> process df <> []) /\
  (fst (bulk_insert_points self (Some df)) = true ->
   points (snd (bulk_insert_points self (Some df))) = process df).
Proof.
  unfold bulk_insert_points, process.
  destruct (column_astype_float (map LATITUDE (dropna df))) as [lats | e]; cbn [bind].
  - destruct (column_astype_float (map LONGITUDE (dropna df))) as [lons | e];
      cbn [bind].
    + destruct (region_points lats lons) as [| p pts]; simpl.
      * split; [split; [discriminate | congruence] | discriminate].
      * split; [split; [discriminate | reflexivity] | reflexivity].
    + simpl. split; [split; [discriminate | congruence] | discriminate].
  - simpl. split; [split; [discriminate | congruence] | discriminate].
Qed.

(** [process] never yields a point outside the box, whatever the input. *)
Theorem process_stays_in_box (df : dataframe) : Forall in_box (process df).
Proof.
  unfold process.
  destruct (column_astype_float (map LATITUDE (dropna df))) as [lats | e]; cbn [bind];
    [| constructor].
  destruct (column_astype_float (map LONGITUDE (dropna df))) as [lons | e]; cbn [bind];
    [| constructor].
  apply region_points_in_box.
Qed.

Lemma column_astype_float_refuses (col : list cell) :
  In (Text None) col -> column_astype_float col = Raises ValueError.
Proof.
  induction col as [| c col IH]; simpl; intros H; [contradiction |].
  destruct c as [| [f |]]; cbn [astype_float bind]; try reflexivity.
  - destruct H as [H | H]; [discriminate |]. now rewrite IH.
  - destruct H as [H | H]; [discriminate |]. now rewrite IH.
Qed.

Lemma column_astype_float_raises_only_ValueError (col : list cell) (e : exn) :
  column_astype_float col = Raises e -> e = ValueError.
Proof.
  induction col as [| c col IH]; simpl; [discriminate |].
  destruct c as [| [f |]]; cbn [astype_float bind].
  - destruct (column_astype_float col); cbn [bind]; [discriminate |].
    intros H. apply IH. congruence.
  - destruct (column_astype_float col); cbn [bind]; [discriminate |].
    intros H. apply IH. congruence.
  - congruence.
Qed.

(** One coordinate text that [float()] refuses, in a record that has both
    coordinates, loses the whole file: [process] returns no point at all
    and the bulk load returns [False] without touching the object. *)
Theorem one_unparseable_record_loses_all
    (self : FastPostGISLike) (df : dataframe) (r : row) :
  In r df ->
  notna (LATITUDE r) && notna (LONGITUDE r) = true ->
  LATITUDE r = Text None \/ LONGITUDE r = Text None ->
  process df = [] /\ bulk_insert_points self (Some df) = (false, self).
Proof.
  intros Hin Hna Hbad.
  assert (Hr : In r (dropna df)) by (apply filter_In; split; assumption).
  assert (Hraise :
            (lats <- column_astype_float (map LATITUDE (dropna df)) ;;
             lons <- column_astype_float (map LONGITUDE (dropna df)) ;;
             Returns (lats, lons)) = Raises ValueError).
  { destruct (column_astype_float (map LATITUDE (dropna df))) as [lats | e] eqn:E1;
      cbn [bind].
    - destruct Hbad as [Hbad | Hbad].
      + rewrite column_astype_float_refuses in E1; [discriminate |].
        rewrite <- Hbad. now apply in_map.
      + rewrite column_astype_float_refuses; [reflexivity |].
        rewrite <- Hbad. now apply in_map.
    - now rewrite (column_astype_float_raises_only_ValueError _ E1). }
  split.
  - unfold process.
    destruct (column_astype_float (map LATITUDE (dropna df))) as [lats | e];
      cbn [bind] in *; [| reflexivity].
    destruct (column_astype_float (map LONGITUDE (dropna df))) as [lons | e];
      cbn [bind] in *; [discriminate | reflexivity].
  - unfold bulk_insert_points. now rewrite Hraise.
Qed.

Lemma one_unparseable_record_loses_all_witness :
  process (csv_mixed ++ [mkRow (num (-235 # 10)) (Text None)]) = [] /\
  bulk_insert_points init (Some (csv_mixed ++ [mkRow (num (-235 # 10)) (Text None)]))
    = (false, init).
Proof.
  apply (@one_unparseable_record_loses_all init _ (mkRow (num (-235 # 10)) (Text None))).
  - apply in_or_app. right. left. reflexivity.
  - reflexivity.
  - right. reflexivity.
Defined.

(** Loading the same file a second time changes nothing: neither the flag
    nor the state. *)
Theorem bulk_insert_points_idempotent (self : FastPostGISLike) (csv : option dataframe) :
  bulk_insert_points (snd (bulk_insert_points self csv)) csv
  = bulk_insert_points self csv.
Proof.
  unfold bulk_insert_points. destruct csv as [df |]; [| reflexivity].
  destruct (column_astype_float (map LATITUDE (dropna df))) as [lats | e]; cbn [bind];
    [| reflexivity].
  destruct (column_astype_float (map LONGITUDE (dropna df))) as [lons | e]; cbn [bind];
    [| reflexivity].
  destruct (region_points lats lons) as [| p pts]; reflexivity.
Qed.

(** A successful load replaces the object's content: the resulting state
    does not depend on what was loaded before. *)
Theorem bulk_insert_points_overwrites
    (self other self' : FastPostGISLike) (csv : option dataframe) :
  bulk_insert_points self csv = (true, self') ->
  bulk_insert_points other csv = (true, self').
Proof.
  unfold bulk_insert_points. destruct csv as [df |]; [| discriminate].
  destruct (column_astype_float (map LATITUDE (dropna df))) as [lats | e]; cbn [bind];
    [| discriminate].
  destruct (column_astype_float (map LONGITUDE (dropna df))) as [lons | e]; cbn [bind];
    [| discriminate].
  destruct (region_points lats lons) as [| p pts]; simpl; [discriminate |].
  intros H. exact H.
Qed.

Lemma bulk_insert_points_overwrites_witness :
  bulk_insert_points (loaded csv_one) (Some csv_mixed) = (true, loaded csv_mixed).
Proof.
  apply (@bulk_insert_points_overwrites init). vm_compute. reflexivity.
Defined.

(** A load that accepts no record empties [points] but leaves the previous
    index in place: the object then answers every query as before the
    load, from an index whose points it no longer stores. *)
Theorem empty_load_keeps_previous_index (self : FastPostGISLike) (df : dataframe) :
  Forall parses df -> accepted df = [] ->
  bulk_insert_points self (Some df)
    = (false, {| points := []; points_array := Some []; kdtree := kdtree self |}) /\
  (forall center radius_km,
      fast_spatial_query (snd (bulk_insert_points self (Some df))) center radius_km
      = fast_spatial_query self center radius_km) /\
  (forall query_points k,
      fast_nearest_points (snd (bulk_insert_points self (Some df))) query_points k
      = fast_nearest_points self query_points k).
Proof.
  intros Hp Ha.
  destruct (bulk_insert_columns Hp) as [lats [lons [E1 [E2 E3]]]].
  assert (E : bulk_insert_points self (Some df)
              = (false, {| points := []; points_array := Some [];
                           kdtree := kdtree self |})).
  { unfold bulk_insert_points. rewrite E1, E2. cbn [bind]. rewrite E3, Ha.
    reflexivity. }
  rewrite E. split; [reflexivity |]. split; reflexivity.
Qed.

Lemma empty_load_keeps_previous_index_witness :
  bulk_insert_points (loaded csv_mixed) (Some [mkRow (num 0) (num 0)])
    = (false, {| points := []; points_array := Some [];
                 kdtree := kdtree (loaded csv_mixed) |}) /\
  (forall center radius_km,
      fast_spatial_query
        (snd (bulk_insert_points (loaded csv_mixed) (Some [mkRow (num 0) (num 0)])))
        center radius_km
      = fast_spatial_query (loaded csv_mixed) center radius_km) /\
  (forall query_points k,
      fast_nearest_points
        (snd (bulk_insert_points (loaded csv_mixed) (Some [mkRow (num 0) (num 0)])))
        query_points k
      = fast_nearest_points (loaded csv_mixed) query_points k).
Proof.
  apply empty_load_keeps_previous_index.
  - repeat (apply Forall_cons; [intros _; split; discriminate |]). apply Forall_nil.
  - reflexivity.
Defined.

(** ** Radius queries: what exactly is returned *)

Lemma query_ball_point_NoDup (tree : KDTree.t) (c : point) (r : Q) :
  NoDup (KDTree.query_ball_point tree c r).
Proof.
  unfold KDTree.query_ball_point.
  assert (H : forall (l : list (nat * point)) (f : nat * point -> bool),
             NoDup (map fst l) -> NoDup (map fst (filter f l))).
  { intros l f. induction l as [| a l IH]; simpl; intros Hnd; [constructor |].
    inversion Hnd as [| ? ? Hnot Hnd']; subst.
    destruct (f a); simpl; [| now apply IH].
    constructor; [| now apply IH].
    intros Hin. apply Hnot. apply in_map_iff in Hin.
    destruct Hin as [b [Hb Hin]]. apply filter_In in Hin.
    apply in_map_iff. exists b. tauto. }
  apply H. rewrite map_fst_enumerate. apply seq_NoDup.
Qed.

Lemma lookup_radius_nonneg (lat_center radius_km : Q) :
  ~ (lat_center == 0)%Q -> (0 <= radius_km)%Q ->
  (0 < km_per_lon_degree lat_center)%Q /\
  (0 <= lookup_radius lat_center radius_km)%Q.
Proof.
  intros Hlat Hr.
  assert (Hkm0 : (0 < km_per_degree)%Q) by reflexivity.
  assert (Hden : (0 < km_per_lon_degree lat_center)%Q).
  { unfold km_per_lon_degree, Qdiv. repeat apply Qmult_lt_0_compat;
      [exact Hkm0 | now apply Qabs_pos_nonzero | reflexivity | reflexivity]. }
  split; [exact Hden |]. unfold lookup_radius.
  apply Qle_trans with (radius_km / km_per_degree)%Q;
    [now apply Qdiv_nonneg | apply max_ge_l].
Qed.

Lemma fast_spatial_query_off_equator
    (self : FastPostGISLike) (tree : KDTree.t) (lat_center lon_center radius_km : Q) :
  kdtree self = Some tree ->
  ~ (lat_center == 0)%Q ->
  fast_spatial_query self (lat_center, lon_center) radius_km =
  Returns (KDTree.query_ball_point tree (lat_center, lon_center)
             (lookup_radius lat_center radius_km)).
Proof.
  intros Ht Hlat.
  assert (Hkm0 : (0 < km_per_degree)%Q) by reflexivity.
  assert (Hden : (0 < km_per_degree * Qabs lat_center * np_pi / 180)%Q).
  { unfold Qdiv. repeat apply Qmult_lt_0_compat;
      [exact Hkm0 | now apply Qabs_pos_nonzero | reflexivity | reflexivity]. }
  unfold fast_spatial_query, lat_radius, lon_radius. rewrite Ht.
  rewrite (truediv_pos _ Hkm0), (truediv_pos _ Hden). reflexivity.
Qed.

(** Off the equator and for a non-negative radius, the query returns,
    without repetition, exactly the identities of the indexed points whose
    Euclidean distance in degrees to the centre is at most the larger of
    the two degree radii: nothing farther is returned. *)
Theorem fast_spatial_query_returns_the_lookup_disc
    (self : FastPostGISLike) (tree : KDTree.t) (lat_center lon_center radius_km : Q) :
  kdtree self = Some tree ->
  ~ (lat_center == 0)%Q ->
  (0 <= radius_km)%Q ->
  exists ids,
    fast_spatial_query self (lat_center, lon_center) radius_km = Returns ids /\
    NoDup ids /\
    forall i,
      In i ids <->
      exists p,
        nth_error (KDTree.data tree) i = Some p /\
        (KDTree.dist2 (lat_center, lon_center) p <=
         lookup_radius lat_center radius_km * lookup_radius lat_center radius_km)%Q.
Proof.
  intros Ht Hlat Hr. eexists.
  split; [exact (@fast_spatial_query_off_equator self tree lat_center lon_center
                   radius_km Ht Hlat) |].
  split; [apply query_ball_point_NoDup |].
  intros i. rewrite In_query_ball_point. unfold KDTree.within.
  split; intros [p [Hp Hw]]; exists p; (split; [exact Hp |]);
    now apply Qle_bool_iff.
Qed.

Lemma fast_spatial_query_returns_the_lookup_disc_witness :
  exists ids,
    fast_spatial_query (loaded csv_mixed) (-236 # 10, -465 # 10)%Q 5 = Returns ids /\
    NoDup ids.
Proof.
  destruct (@fast_spatial_query_returns_the_lookup_disc (loaded csv_mixed)
              (KDTree.Build (points (loaded csv_mixed))) (-236 # 10) (-465 # 10) 5)
    as [ids [H1 [H2 _]]].
  - reflexivity.
  - intros H. vm_compute in H. discriminate.
  - vm_compute. discriminate.
  - exists ids. split; assumption.
Defined.

Lemma max_monotone (a b c d : Q) :
  (a <= c)%Q -> (b <= d)%Q -> (Py.max a b <= Py.max c d)%Q.
Proof.
  intros Hac Hbd. unfold Py.max at 1. destruct (Qle_bool b a).
  - apply Qle_trans with c; [exact Hac | apply max_ge_l].
  - apply Qle_trans with d; [exact Hbd | apply max_ge_r].
Qed.

Lemma Qdiv_le_compat (a b c : Q) : (0 < c)%Q -> (a <= b)%Q -> (a / c <= b / c)%Q.
Proof.
  intros Hc Hab. unfold Qdiv. apply Qmult_le_compat_r; [exact Hab |].
  apply Qlt_le_weak. now apply Qinv_lt_0_compat.
Qed.

(** A larger radius never loses a point: around the same centre, whatever
    is returned for [r1] is returned for every [r2 >= r1]. *)
Theorem fast_spatial_query_monotone_in_radius
    (self : FastPostGISLike) (center : point) (r1 r2 : Q) (ids1 : list nat) (i : nat) :
  ~ (fst center == 0)%Q ->
  (0 <= r1)%Q -> (r1 <= r2)%Q ->
  fast_spatial_query self center r1 = Returns ids1 ->
  In i ids1 ->
  exists ids2, fast_spatial_query self center r2 = Returns ids2 /\ In i ids2.
Proof.
  destruct center as [lat_center lon_center]. cbn [fst].
  intros Hlat Hr1 Hr12 Hq Hi.
  destruct (kdtree self) as [tree |] eqn:Ht.
  - rewrite (@fast_spatial_query_off_equator self tree lat_center lon_center r1 Ht Hlat)
      in Hq.
    inversion Hq; subst ids1.
    eexists.
    split; [exact (@fast_spatial_query_off_equator self tree lat_center lon_center r2
                     Ht Hlat) |].
    apply In_query_ball_point in Hi. destruct Hi as [p [Hp Hw]].
    apply In_query_ball_point. exists p. split; [exact Hp |].
    unfold KDTree.within in *. apply Qle_bool_iff in Hw. rename Hw into Hd.
    assert (Hr2 : (0 <= r2)%Q) by (now apply Qle_trans with r1).
    destruct (@lookup_radius_nonneg lat_center r2 Hlat Hr2) as [Hden HR2].
    destruct (@lookup_radius_nonneg lat_center r1 Hlat Hr1) as [_ HR1].
    assert (Hmono : (lookup_radius lat_center r1 <= lookup_radius lat_center r2)%Q).
    { unfold lookup_radius. apply max_monotone; apply Qdiv_le_compat; auto.
      reflexivity. }
    apply Qle_bool_iff.
    apply Qle_trans with (lookup_radius lat_center r1 * lookup_radius lat_center r1)%Q;
      [exact Hd |].
    apply Qmult_le_compat_nonneg; split; assumption.
  - unfold fast_spatial_query in Hq. rewrite Ht in Hq. inversion Hq; subst.
    contradiction.
Qed.

Lemma fast_spatial_query_monotone_in_radius_witness :
  exists ids2,
    fast_spatial_query (loaded csv_mixed) (-236 # 10, -465 # 10)%Q 10 = Returns ids2 /\
    In 1 ids2.
Proof.
  apply (@fast_spatial_query_monotone_in_radius (loaded csv_mixed)
           (-236 # 10, -465 # 10)%Q 5 10 [0; 1] 1).
  - intros H. vm_compute in H. discriminate.
  - vm_compute. discriminate.
  - vm_compute. discriminate.
  - vm_compute. reflexivity.
  - simpl. right. left. reflexivity.
Defined.

(** ** k-nearest queries: the shape of the answer *)

Lemma In_fast_nearest_points_row
    (self : FastPostGISLike) (tree : KDTree.t) (query_points : list point) (k : Z)
    (rows : list (list nat)) (row : list nat) :
  kdtree self = Some tree -> (1 <= k)%Z ->
  fast_nearest_points self query_points k = Returns rows ->
  In row rows ->
  exists q, In q query_points /\ row = snd (KDTree.query_row tree q (Z.to_nat k)).
Proof.
  intros Ht Hk Hq Hrow. destruct query_points as [| q0 qs].
  - unfold fast_nearest_points in Hq. rewrite Ht in Hq. simpl in Hq.
    inversion Hq; subst. contradiction.
  - assert (Hne : q0 :: qs <> []) by discriminate.
    rewrite (@fast_nearest_points_rows self tree (q0 :: qs) k Ht Hne Hk) in Hq.
    remember (q0 :: qs) as qs' eqn:Eqs. clear Eqs Hne.
    assert (Hrows : rows =
              map (fun q => snd (KDTree.query_row tree q (Z.to_nat k))) qs')
      by congruence.
    subst rows. apply in_map_iff in Hrow. destruct Hrow as [q [<- Hin]].
    exists q. split; [exact Hin | reflexivity].
Qed.

(** A row always has [k] entries.  Its first [min(k, n)] entries are
    identities of indexed points; every entry from position [n] on is the
    number [n] itself, which is no identity; and when [k >= n] every
    indexed point is listed. *)
Theorem fast_nearest_points_row_shape
    (self : FastPostGISLike) (tree : KDTree.t) (query_points : list point) (k : Z)
    (rows : list (list nat)) (row : list nat) :
  kdtree self = Some tree -> (1 <= k)%Z ->
  fast_nearest_points self query_points k = Returns rows ->
  In row rows ->
  length row = Z.to_nat k /\
  (forall pos i, nth_error row pos = Some i ->
     (pos < KDTree.n tree -> i < KDTree.n tree) /\
     (KDTree.n tree <= pos -> i = KDTree.n tree)) /\
  (KDTree.n tree <= Z.to_nat k -> forall i, i < KDTree.n tree -> In i row).
Proof.
  intros Ht Hk Hq Hrow.
  destruct (@In_fast_nearest_points_row self tree query_points k rows row Ht Hk Hq Hrow)
    as [q [_ ->]].
  set (k' := Z.to_nat k).
  pose proof (by_distance_ids_perm tree q) as Hperm.
  pose proof (by_distance_length tree q) as Hlen.
  split; [apply (proj1 (query_row_length tree q k')) |].
  unfold KDTree.query_row. cbn [snd].
  set (near := firstn k' (KDTree.by_distance tree q)).
  assert (Hnear : length near = Nat.min k' (KDTree.n tree))
    by (unfold near; now rewrite length_firstn, Hlen).
  split.
  - intros pos i Hpos.
    destruct (Nat.lt_ge_cases pos (length near)) as [Hlt | Hge].
    + rewrite nth_error_app1 in Hpos by (now rewrite length_map).
      split; [| lia]. intros _.
      apply nth_error_In, in_map_iff in Hpos. destruct Hpos as [ip [<- Hip]].
      assert (In (fst ip) (seq 0 (KDTree.n tree))) as Hs.
      { apply (Permutation_in _ Hperm), in_map.
        unfold near in Hip.
        rewrite <- (firstn_skipn k' (KDTree.by_distance tree q)).
        apply in_or_app. now left. }
      apply in_seq in Hs. lia.
    + rewrite nth_error_app2 in Hpos by (now rewrite length_map).
      assert (Hb : pos - length (map fst near)
                   < length (repeat (KDTree.n tree) (k' - length near)))
        by (apply nth_error_Some; congruence).
      rewrite repeat_length, length_map in Hb.
      apply nth_error_In, repeat_spec in Hpos. subst i.
      split; [intros Hn; lia | reflexivity].
  - intros Hn i Hi. apply in_or_app. left.
    unfold near. rewrite firstn_all2 by lia.
    apply (Permutation_in _ (Permutation_sym Hperm)), in_seq. lia.
Qed.

Lemma fast_nearest_points_row_shape_witness :
  length [0; 1; 1] = Z.to_nat 3 /\
  (forall pos i, nth_error [0; 1; 1] pos = Some i ->
     (pos < 1 -> i < 1) /\ (1 <= pos -> i = 1)) /\
  (1 <= Z.to_nat 3 -> forall i, i < 1 -> In i [0; 1; 1]).
Proof.
  apply (@fast_nearest_points_row_shape (loaded csv_one)
           (KDTree.Build (points (loaded csv_one)))
           [(-2355 # 100, -4663 # 100)%Q] 3 [[0; 1; 1]] [0; 1; 1]).
  - reflexivity.
  - lia.
  - vm_compute. reflexivity.
  - left. reflexivity.
Defined.

(** The method never raises, and it answers with one row per query point
    exactly when there is an index and [k >= 1]; otherwise (no index,
    [k < 1], or no query point) the answer is the empty list. *)
Theorem fast_nearest_points_number_of_rows
    (self : FastPostGISLike) (query_points : list point) (k : Z) :
  exists rows,
    fast_nearest_points self query_points k = Returns rows /\
    length rows =
    match kdtree self with
    | Some _ => if (1 <=? k)%Z then length query_points else 0
    | None => 0
    end.
Proof.
  destruct (kdtree self) as [tree |] eqn:Ht.
  - destruct (1 <=? k)%Z eqn:Ek.
    + apply Z.leb_le in Ek. destruct query_points as [| q0 qs].
      * exists []. unfold fast_nearest_points. rewrite Ht. split; reflexivity.
      * assert (Hne : q0 :: qs <> []) by discriminate.
        eexists. split;
          [exact (@fast_nearest_points_rows self tree (q0 :: qs) k Ht Hne Ek) |].
        apply length_map.
    + apply Z.leb_gt in Ek. exists []. split; [| reflexivity].
      apply fast_nearest_points_at_most_zero. lia.
  - exists []. unfold fast_nearest_points. rewrite Ht. split; reflexivity.
Qed.

Lemma dist2_nonneg (a b : point) : (0 <= KDTree.dist2 a b)%Q.
Proof.
  unfold KDTree.dist2.
  generalize (fst a - fst b)%Q (snd a - snd b)%Q. intros u v. nra.
Qed.

Lemma dist2_self (a : point) : (KDTree.dist2 a a == 0)%Q.
Proof. unfold KDTree.dist2. ring. Qed.

(** Asked for the neighbours of a point that is itself in the index (as
    [benchmark_queries] does), the method lists first a point at distance
    zero. *)
Theorem fast_nearest_points_of_indexed_point
    (self : FastPostGISLike) (tree : KDTree.t) (j : nat) (q : point) (k : Z)
    (row : list nat) :
  kdtree self = Some tree -> (1 <= k)%Z ->
  nth_error (KDTree.data tree) j = Some q ->
  fast_nearest_points self [q] k = Returns [row] ->
  exists i, nth_error row 0 = Some i /\ i < KDTree.n tree /\
            (dist_to tree q i == 0)%Q.
Proof.
  intros Ht Hk Hj Hq.
  assert (Hne : [q] <> []) by discriminate.
  rewrite (@fast_nearest_points_rows self tree [q] k Ht Hne Hk) in Hq.
  simpl in Hq. inversion Hq as [Hrow]. clear Hq Hrow.
  assert (Hdata : KDTree.data tree <> []).
  { intros E. rewrite E in Hj. destruct j; discriminate. }
  destruct tree as [data]. cbn [KDTree.data] in *.
  destruct (nearest_nonempty q Hdata) as [i [p [E Hi]]].
  exists i.
  assert (Hhd : hd_error (KDTree.by_distance (KDTree.Build data) q) = Some (i, p)).
  { unfold KDTree.by_distance. rewrite hd_sort_by. exact E. }
  split; [| split].
  - unfold KDTree.query_row. cbn [snd].
    destruct (KDTree.by_distance (KDTree.Build data) q) as [| ip l];
      [discriminate |].
    simpl in Hhd. inversion Hhd; subst ip.
    destruct (Z.to_nat k) as [| k'] eqn:Ek; [lia |]. reflexivity.
  - unfold KDTree.n. cbn [KDTree.data]. apply nth_error_Some. congruence.
  - unfold dist_to. cbn [KDTree.data]. rewrite (nth_error_nth _ _ _ Hi).
    apply Qle_antisym; [| apply dist2_nonneg].
    rewrite <- (dist2_self q). exact (nearest_is_minimal _ _ E _ Hj).
Qed.

Lemma fast_nearest_points_of_indexed_point_witness :
  exists i, nth_error [1; 0] 0 = Some i /\
            i < KDTree.n (KDTree.Build (points (loaded csv_mixed))) /\
            (dist_to (KDTree.Build (points (loaded csv_mixed)))
                     (-236 # 10, -466 # 10)%Q i == 0)%Q.
Proof.
  apply (@fast_nearest_points_of_indexed_point (loaded csv_mixed)
           (KDTree.Build (points (loaded csv_mixed))) 1
           (-236 # 10, -466 # 10)%Q 2 [1; 0]).
  - reflexivity.
  - lia.
  - reflexivity.
  - vm_compute. reflexivity.
Defined.

(** ** Point in polygon *)

Lemma Qeq_bool_false_neq (a b : Q) : Qeq_bool a b = false -> ~ (a == b)%Q.
Proof. apply Qeq_bool_neq. Qed.

Lemma polygon_min_cases (a b : Q) :
  ((a <= b)%Q /\ Polygon.min a b = a) \/ ((b < a)%Q /\ Polygon.min a b = b).
Proof.
  unfold Polygon.min. destruct (Qle_bool a b) eqn:E.
  - left. split; [now apply Qle_bool_iff | reflexivity].
  - right. split; [now apply Qle_bool_false | reflexivity].
Qed.

Lemma py_max_cases (a b : Q) :
  ((b <= a)%Q /\ Py.max a b = a) \/ ((a < b)%Q /\ Py.max a b = b).
Proof.
  unfold Py.max. destruct (Qle_bool b a) eqn:E.
  - left. split; [now apply Qle_bool_iff | reflexivity].
  - right. split; [now apply Qle_bool_false | reflexivity].
Qed.

(** Between the two tests on [y] the end points of the edge differ in
    height. *)
Lemma height_tests_exclude_flat_edge (y a b : Q) :
  negb (Qle_bool y (Polygon.min a b)) = true ->
  Qle_bool y (Py.max a b) = true ->
  ~ (a == b)%Q.
Proof.
  intros Hmin Hmax Hab. apply negb_true_iff, Qle_bool_false in Hmin.
  apply Qle_bool_iff in Hmax.
  destruct (polygon_min_cases a b) as [[H1 E1] | [H1 E1]];
    destruct (py_max_cases a b) as [[H2 E2] | [H2 E2]];
    rewrite E1 in Hmin; rewrite E2 in Hmax; lra.
Qed.

(** One turn of the loop never raises: it flips [inside] exactly when
    [flips] says so. *)
Lemma step_flips (x y : Q) (st : Polygon.locals) (p2 : point) :
  exists xi,
    Polygon.step x y st p2 =
    inr (Polygon.mkLocals
           (xorb (Polygon.inside st)
                 (flips x y (Polygon.p1x st, Polygon.p1y st) p2))
           (fst p2) (snd p2) xi).
Proof.
  destruct p2 as [p2x p2y]. unfold Polygon.step, flips. cbn [fst snd].
  destruct (negb (Qle_bool y (Polygon.min (Polygon.p1y st) p2y))) eqn:E1; cbn [andb];
    [| eexists; now rewrite xorb_false_r].
  destruct (Qle_bool y (Py.max (Polygon.p1y st) p2y)) eqn:E2; cbn [andb];
    [| eexists; now rewrite xorb_false_r].
  destruct (Qle_bool x (Py.max (Polygon.p1x st) p2x)) eqn:E3; cbn [andb];
    [| eexists; now rewrite xorb_false_r].
  pose proof (@height_tests_exclude_flat_edge y (Polygon.p1y st) p2y E1 E2) as Hne.
  destruct (Qeq_bool (Polygon.p1y st) p2y) eqn:E4;
    [apply Qeq_bool_iff in E4; contradiction |].
  cbn [negb].
  destruct (Qeq_bool (p2y - Polygon.p1y st) 0) eqn:E5.
  { apply Qeq_bool_iff in E5. exfalso. apply Hne. lra. }
  destruct (Qeq_bool (Polygon.p1x st) p2x) eqn:E6; cbn [orb].
  - eexists. now rewrite xorb_true_r.
  - destruct (Qle_bool x ((y - Polygon.p1y st) * (p2x - Polygon.p1x st) /
                          (p2y - Polygon.p1y st) + Polygon.p1x st)%Q) eqn:E7;
      eexists;
      [now rewrite xorb_true_r | now rewrite xorb_false_r].
Qed.

Lemma loop_crossings (x y : Q) (vertices : list point) :
  forall st,
    exists st',
      Polygon.loop x y st vertices = inr st' /\
      Polygon.inside st' =
      xorb (Polygon.inside st)
           (crossings x y (Polygon.p1x st, Polygon.p1y st) vertices).
Proof.
  induction vertices as [| p2 rest IH]; intros st; cbn [Polygon.loop crossings].
  - exists st. split; [reflexivity | now rewrite xorb_false_r].
  - destruct (step_flips x y st p2) as [xi ->].
    destruct (IH (Polygon.mkLocals
                    (xorb (Polygon.inside st)
                          (flips x y (Polygon.p1x st, Polygon.p1y st) p2))
                    (fst p2) (snd p2) xi)) as [st' [E Hin]].
    exists st'. split; [exact E |]. rewrite Hin. cbn [Polygon.inside Polygon.p1x Polygon.p1y].
    rewrite <- surjective_pairing. now rewrite xorb_assoc.
Qed.

(** The method answers with the parity of the edges crossed; only the
    empty polygon makes its body raise. *)
Lemma body_crossings (x y : Q) (p1 : point) (rest : list point) :
  Polygon.body (x, y) (p1 :: rest) =
  inr (crossings x y p1
         (map (fun i => nth (i mod length (p1 :: rest)) (p1 :: rest) p1)
              (seq 1 (length (p1 :: rest))))).
Proof.
  unfold Polygon.body.
  destruct (loop_crossings x y
              (map (fun i => nth (i mod length (p1 :: rest)) (p1 :: rest) p1)
                   (seq 1 (length (p1 :: rest))))
              (Polygon.mkLocals false (fst p1) (snd p1) None)) as [st' [E Hin]].
  rewrite E, Hin. cbn [Polygon.inside Polygon.p1x Polygon.p1y].
  now rewrite <- surjective_pairing.
Qed.

(** The body of [point_in_polygon] raises for the empty polygon only (the
    access to [polygon[0]]): on every other input the division is by a
    non-zero height and [xinters] is bound when it is read, so [False]
    from the handler is returned for the empty polygon alone. *)
Theorem point_in_polygon_raises_only_on_empty (pt : point) (polygon : list point) :
  match polygon with
  | [] => Polygon.body pt polygon = inl Polygon.EmptyPolygon /\
          Polygon.point_in_polygon pt polygon = false
  | _ :: _ => exists b, Polygon.body pt polygon = inr b /\
                        Polygon.point_in_polygon pt polygon = b
  end.
Proof.
  destruct pt as [x y]. destruct polygon as [| p1 rest].
  - split; reflexivity.
  - eexists. unfold Polygon.point_in_polygon. rewrite body_crossings.
    split; reflexivity.
Qed.

Lemma Qle_bool_compat_r (u a b : Q) : (a == b)%Q -> Qle_bool u a = Qle_bool u b.
Proof.
  intros Hab. destruct (Qle_bool u a) eqn:Ea, (Qle_bool u b) eqn:Eb; try reflexivity.
  - apply Qle_bool_iff in Ea. apply Qle_bool_false in Eb. lra.
  - apply Qle_bool_iff in Eb. apply Qle_bool_false in Ea. lra.
Qed.

Lemma polygon_min_sym (a b : Q) : (Polygon.min a b == Polygon.min b a)%Q.
Proof.
  destruct (polygon_min_cases a b) as [[H1 ->] | [H1 ->]];
    destruct (polygon_min_cases b a) as [[H2 ->] | [H2 ->]]; lra.
Qed.

Lemma py_max_sym (a b : Q) : (Py.max a b == Py.max b a)%Q.
Proof.
  destruct (py_max_cases a b) as [[H1 ->] | [H1 ->]];
    destruct (py_max_cases b a) as [[H2 ->] | [H2 ->]]; lra.
Qed.

(** Across an edge with equal abscissas the intersection abscissa is not
    consulted: the flip is decided by the three comparisons alone. *)
Lemma flips_equal_abscissas (x y : Q) (p q : point) :
  (fst p == fst q)%Q ->
  flips x y p q =
  negb (Qle_bool y (Polygon.min (snd p) (snd q))) &&
  Qle_bool y (Py.max (snd p) (snd q)) &&
  Qle_bool x (Py.max (fst p) (fst q)).
Proof.
  intros H. unfold flips. apply Qeq_bool_iff in H. rewrite H. cbn [orb].
  apply andb_true_r.
Qed.

Lemma flips_flat_edge (x y : Q) (p q : point) :
  (snd p == snd q)%Q -> flips x y p q = false.
Proof.
  intros Hpq. unfold flips.
  destruct (negb (Qle_bool y (Polygon.min (snd p) (snd q)))) eqn:E1; cbn [andb];
    [| reflexivity].
  destruct (Qle_bool y (Py.max (snd p) (snd q))) eqn:E2; cbn [andb]; [| reflexivity].
  exfalso. exact (@height_tests_exclude_flat_edge y (snd p) (snd q) E1 E2 Hpq).
Qed.

(** The polygons of fewer than three vertices on which no intersection
    abscissa is compared.  The method reports no point inside the empty
    polygon, a single vertex, or two vertices with equal abscissas or equal
    ordinates: the one edge is walked forth and back, and is either
    skipped twice by the height tests or flips [inside] twice.  (For two
    vertices in general position the two walks compute [xinters] by two
    different divisions, and the answer is left to their rounding.) *)
Theorem point_in_polygon_degenerate_polygon (pt : point) (polygon : list point) :
  match polygon with
  | [] => True
  | [p] => True
  | [p; q] => (fst p == fst q)%Q \/ (snd p == snd q)%Q
  | _ => False
  end ->
  Polygon.point_in_polygon pt polygon = false.
Proof.
  intros Hdeg. destruct pt as [x y]. unfold Polygon.point_in_polygon.
  destruct polygon as [| p [| q [| r rest]]]; [reflexivity | | | contradiction].
  - rewrite body_crossings. cbn [length seq map crossings].
    rewrite flips_flat_edge; [reflexivity |]. simpl. reflexivity.
  - rewrite body_crossings. cbn [length seq map crossings].
    change (nth (1 mod 2) [p; q] p) with q. change (nth (2 mod 2) [p; q] p) with p.
    rewrite xorb_false_r.
    destruct Hdeg as [Hx | Hy].
    + rewrite (flips_equal_abscissas x y p q Hx).
      rewrite (flips_equal_abscissas x y q p) by (symmetry; exact Hx).
      rewrite (Qle_bool_compat_r y (polygon_min_sym (snd q) (snd p))).
      rewrite (Qle_bool_compat_r y (py_max_sym (snd q) (snd p))).
      rewrite (Qle_bool_compat_r x (py_max_sym (fst q) (fst p))).
      apply xorb_nilpotent.
    + rewrite (flips_flat_edge x y p q Hy).
      rewrite (flips_flat_edge x y q p) by (symmetry; exact Hy).
      reflexivity.
Qed.

Lemma point_in_polygon_degenerate_polygon_witness :
  Polygon.point_in_polygon (0, 1 # 2)%Q [(1, 0)%Q; (1, 1)%Q] = false.
Proof.
  apply point_in_polygon_degenerate_polygon. left. reflexivity.
Defined.

Lemma crossings_no_flip (x y : Q) (polygon vertices : list point) (p1 : point) :
  (forall p q, In p polygon -> In q polygon -> flips x y p q = false) ->
  In p1 polygon -> (forall v, In v vertices -> In v polygon) ->
  crossings x y p1 vertices = false.
Proof.
  intros Hflip. revert p1. induction vertices as [| p2 rest IH]; intros p1 Hp1 Hvs.
  - reflexivity.
  - cbn [crossings]. rewrite Hflip; [| exact Hp1 | apply Hvs; now left].
    rewrite IH; [reflexivity | apply Hvs; now left |].
    intros v Hv. apply Hvs. now right.
Qed.

(** A point above every vertex, not above any vertex, or to the right of
    every vertex is reported outside. *)
Theorem point_in_polygon_outside_bounding_box
    (x y : Q) (polygon : list point) :
  Forall (fun p => (snd p < y)%Q) polygon \/
  Forall (fun p => (y <= snd p)%Q) polygon \/
  Forall (fun p => (fst p < x)%Q) polygon ->
  Polygon.point_in_polygon (x, y) polygon = false.
Proof.
  intros Hout. unfold Polygon.point_in_polygon.
  destruct polygon as [| p1 rest]; [reflexivity |].
  rewrite body_crossings. remember (p1 :: rest) as polygon eqn:Ep.
  apply crossings_no_flip with (polygon := polygon).
  - intros p q Hp Hq. unfold flips.
    rewrite !Forall_forall in Hout.
    destruct Hout as [Hab | [Hbe | Hri]].
    + destruct (Qle_bool y (Py.max (snd p) (snd q))) eqn:E;
        [| now rewrite andb_false_r].
      exfalso. apply Qle_bool_iff in E.
      pose proof (Hab p Hp). pose proof (Hab q Hq).
      destruct (py_max_cases (snd p) (snd q)) as [[_ Em] | [_ Em]];
        rewrite Em in E; lra.
    + destruct (Qle_bool y (Polygon.min (snd p) (snd q))) eqn:E; [reflexivity |].
      exfalso. apply Qle_bool_false in E.
      pose proof (Hbe p Hp). pose proof (Hbe q Hq).
      destruct (polygon_min_cases (snd p) (snd q)) as [[_ Em] | [_ Em]];
        rewrite Em in E; lra.
    + destruct (Qle_bool x (Py.max (fst p) (fst q))) eqn:E;
        [| now rewrite andb_false_r].
      exfalso. apply Qle_bool_iff in E.
      pose proof (Hri p Hp). pose proof (Hri q Hq).
      destruct (py_max_cases (fst p) (fst q)) as [[_ Em] | [_ Em]];
        rewrite Em in E; lra.
  - rewrite Ep. now left.
  - intros v Hv. apply in_map_iff in Hv. destruct Hv as [i [<- _]].
    apply nth_In. apply Nat.mod_upper_bound. rewrite Ep. discriminate.
Qed.

Lemma point_in_polygon_outside_bounding_box_witness :
  Polygon.point_in_polygon (3, 1 # 2)%Q (Polygon.rectangle 0 0 1 1) = false.
Proof.
  apply point_in_polygon_outside_bounding_box. right. right.
  unfold Polygon.rectangle.
  repeat (apply Forall_cons; [vm_compute; reflexivity |]). apply Forall_nil.
Defined.

Lemma py_max_same (a : Q) : Py.max a a = a.
Proof. unfold Py.max. now destruct (Qle_bool a a). Qed.

Lemma Qeq_bool_same (a : Q) : Qeq_bool a a = true.
Proof. apply Qeq_bool_iff. reflexivity. Qed.

(** A vertical edge at abscissa [a] flips [inside] for the points at its
    left (or on it) whose height is in the half-open range of the edge. *)
Lemma flips_vertical_edge (x y a b c : Q) :
  flips x y (a, b) (a, c) = true <->
  (Polygon.min b c < y)%Q /\ (y <= Py.max b c)%Q /\ (x <= a)%Q.
Proof.
  unfold flips. cbn [fst snd].
  rewrite Qeq_bool_same, py_max_same. cbn [orb]. rewrite andb_true_r.
  rewrite !andb_true_iff, negb_true_iff, !Qle_bool_iff. split.
  - intros [[H1 H2] H3]. apply Qle_bool_false in H1. auto.
  - intros [H1 [H2 H3]]. repeat split; auto.
    destruct (Qle_bool y (Polygon.min b c)) eqn:E; [| reflexivity].
    apply Qle_bool_iff in E. lra.
Qed.

(** On an axis-parallel rectangle the method is exact, with the left and
    bottom sides excluded and the right and top sides included. *)
Theorem point_in_polygon_rectangle (x y x0 y0 x1 y1 : Q) :
  (x0 < x1)%Q -> (y0 < y1)%Q ->
  (Polygon.point_in_polygon (x, y) (Polygon.rectangle x0 y0 x1 y1) = true <->
   (x0 < x)%Q /\ (x <= x1)%Q /\ (y0 < y)%Q /\ (y <= y1)%Q).
Proof.
  intros Hx Hy. unfold Polygon.point_in_polygon, Polygon.rectangle.
  rewrite body_crossings. cbn [length seq map].
  change (nth (1 mod 4) [(x0, y0); (x1, y0); (x1, y1); (x0, y1)] (x0, y0))
    with (x1, y0).
  change (nth (2 mod 4) [(x0, y0); (x1, y0); (x1, y1); (x0, y1)] (x0, y0))
    with (x1, y1).
  change (nth (3 mod 4) [(x0, y0); (x1, y0); (x1, y1); (x0, y1)] (x0, y0))
    with (x0, y1).
  change (nth (4 mod 4) [(x0, y0); (x1, y0); (x1, y1); (x0, y1)] (x0, y0))
    with (x0, y0).
  cbn [crossings].
  rewrite (flips_flat_edge x y (x0, y0) (x1, y0)) by reflexivity.
  rewrite (flips_flat_edge x y (x1, y1) (x0, y1)) by reflexivity.
  rewrite xorb_false_r, !xorb_false_l.
  pose proof (flips_vertical_edge x y x1 y0 y1) as H2.
  pose proof (flips_vertical_edge x y x0 y1 y0) as H4.
  destruct (polygon_min_cases y0 y1) as [[_ Em1] | [Hc _]]; [| lra].
  destruct (py_max_cases y0 y1) as [[Hc _] | [_ EM1]]; [lra |].
  destruct (polygon_min_cases y1 y0) as [[Hc _] | [_ Em2]]; [lra |].
  destruct (py_max_cases y1 y0) as [[_ EM2] | [Hc _]]; [| lra].
  rewrite Em1, EM1 in H2. rewrite Em2, EM2 in H4.
  destruct (flips x y (x1, y0) (x1, y1)) eqn:F2;
    destruct (flips x y (x0, y1) (x0, y0)) eqn:F4; cbn [xorb].
  - split; [discriminate |]. intros [Ha _].
    destruct (proj1 H4 eq_refl) as [_ [_ Hb]]. lra.
  - split; [intros _ | intros _; reflexivity].
    destruct (proj1 H2 eq_refl) as [Ha [Hb Hc]].
    repeat split; try assumption.
    destruct (Qlt_le_dec x0 x) as [Hlt | Hle]; [exact Hlt |].
    assert (false = true) by (apply H4; auto).
    discriminate.
  - exfalso. destruct (proj1 H4 eq_refl) as [Ha [Hb Hc]].
    assert (false = true) by (apply H2; repeat split; auto; lra). discriminate.
  - split; [discriminate |]. intros [Ha [Hb [Hc Hd]]].
    assert (false = true) by (apply H2; auto). discriminate.
Qed.

Lemma point_in_polygon_rectangle_witness :
  Polygon.point_in_polygon (1 # 2, 1)%Q (Polygon.rectangle 0 0 1 1) = true <->
  (0 < 1 # 2)%Q /\ (1 # 2 <= 1)%Q /\ (0 < 1)%Q /\ (1 <= 1)%Q.
Proof.
  apply point_in_polygon_rectangle; reflexivity.
Defined.

(** ** GeoJSON export *)

(** The export keeps the identities of the queries: the feature at
    position [i] carries ["id": i] and the coordinates of the stored point
    [i], longitude first; no feature is added or lost. *)
Theorem geojson_features_follow_points (self : FastPostGISLike) :
  length (geojson_features self) = length (points self) /\
  forall i,
    nth_error (geojson_features self) i =
    match nth_error (points self) i with
    | Some (lat, lon) => Some (mkFeature i [lon; lat])
    | None => None
    end.
Proof.
  unfold geojson_features. split.
  - now rewrite length_map, length_enumerate.
  - intros i. rewrite nth_error_map, nth_error_enumerate.
    destruct (nth_error (points self) i) as [[lat lon] |]; reflexivity.
Qed.

(** After a successful load, every identity [i] a radius query returns is
    the identity of a stored point inside the box, and the export lists
    that very point at position [i], under ["id": i], with its coordinates
    longitude first. *)
Theorem exported_feature_of_query_result
    (self self' : FastPostGISLike) (csv : option dataframe)
    (center : point) (radius_km : Q) (ids : list nat) (i : nat) :
  bulk_insert_points self csv = (true, self') ->
  fast_spatial_query self' center radius_km = Returns ids ->
  In i ids ->
  exists lat lon,
    nth_error (points self') i = Some (lat, lon) /\
    in_box (lat, lon) /\
    nth_error (geojson_features self') i = Some (mkFeature i [lon; lat]) /\
    (forall j f, nth_error (geojson_features self') j = Some f ->
                 feature_id f = i -> j = i).
Proof.
  intros Hload Hq Hi.
  destruct (@index_answers_stored_points self self' csv center radius_km ids i
              Hload Hq Hi) as [[lat lon] [Hp Hbox]].
  exists lat, lon. split; [exact Hp |]. split; [exact Hbox |]. split.
  - rewrite (proj2 (geojson_features_follow_points self') i), Hp. reflexivity.
  - intros j f Hj Hid.
    rewrite (proj2 (geojson_features_follow_points self') j) in Hj.
    destruct (nth_error (points self') j) as [[lat' lon'] |]; [| discriminate].
    inversion Hj; subst f. simpl in Hid. exact Hid.
Qed.

Lemma exported_feature_of_query_result_witness :
  exists lat lon,
    nth_error (points (loaded csv_mixed)) 1 = Some (lat, lon) /\
    in_box (lat, lon) /\
    nth_error (geojson_features (loaded csv_mixed)) 1 = Some (mkFeature 1 [lon; lat]) /\
    (forall j f, nth_error (geojson_features (loaded csv_mixed)) j = Some f ->
                 feature_id f = 1 -> j = 1).
Proof.
  apply (@exported_feature_of_query_result init (loaded csv_mixed) (Some csv_mixed)
           (-236 # 10, -465 # 10)%Q 5 [0; 1] 1).
  - vm_compute. reflexivity.
  - vm_compute. reflexivity.
  - simpl. right. left. reflexivity.
Defined.
